(** * Transcript windowing ([src/lib/parseTranscript.ts])

    A shallow embedding of [hhmmssToSeconds], [secondsToHHMMSS] and
    [splitTranscriptIntoWindows], with the properties of the windowing
    routine stated and proved over it.

    Modelling conventions.
    - A JavaScript string is a list of UTF-16 code units, each a [Z].
    - A JavaScript number is an exact integer [Z]; [NaN] is the [None] of
      an [option Z].  The code computes in binary64, which agrees with the
      exact integers as long as every operand and result is a safe integer
      (at most [MAX_SAFE_INTEGER] in magnitude).  The second count of a
      timestamp line is at most 362439, so window indices are exact for
      every window length; the second counts behind [from] and [to] grow
      with the window length, and the statements about them take the window
      length in seconds to be a safe integer.
    - The object [windowContents], used as a dictionary keyed by the window
      index, is a [gmap Z (list jsstring)].
    - [windowMinutes] is an integer; the statements take it strictly
      positive, as the routine's contract does. *)

From Stdlib Require Import ZArith List String Ascii Lia Sorting.Sorted.
From stdpp Require Import base option list gmap.

Open Scope Z_scope.

(** ** Strings *)

Definition char := Z.
Definition jsstring := list char.

(** ASCII literals, for readable examples. *)
Definition str (s : string) : jsstring :=
  map (fun a => Z.of_N (N_of_ascii a)) (list_ascii_of_string s).

Definition LF : char := 10.
Definition CR : char := 13.
Definition COLON : char := 58.

(** [\d] : the ASCII digits 0-9. *)
Definition is_digit (c : char) : bool := (48 <=? c) && (c <=? 57).

(** [\s], and the characters removed by [String.prototype.trim]:
    ECMAScript WhiteSpace and LineTerminator code points. *)
Definition is_space (c : char) : bool :=
  (c =? 9) || (c =? 10) || (c =? 11) || (c =? 12) || (c =? 13) || (c =? 32)
  || (c =? 160) || (c =? 5760) || ((8192 <=? c) && (c <=? 8202))
  || (c =? 8232) || (c =? 8233) || (c =? 8239) || (c =? 8287)
  || (c =? 12288) || (c =? 65279).

Fixpoint trimStart (s : jsstring) : jsstring :=
  match s with
  | c :: s' => if is_space c then trimStart s' else s
  | [] => []
  end.

Definition trimEnd (s : jsstring) : jsstring := rev (trimStart (rev s)).

(** [s.trim()] *)
Definition trim (s : jsstring) : jsstring := trimEnd (trimStart s).

(** [s.replace(/\r\n/g, "\n")] *)
Fixpoint replace_crlf (s : jsstring) : jsstring :=
  match s with
  | c :: s' =>
      match s' with
      | d :: s'' =>
          if (c =? CR) && (d =? LF) then LF :: replace_crlf s''
          else c :: replace_crlf s'
      | [] => [c]
      end
  | [] => []
  end.

(** [s.replace(/\r/g, "\n")] *)
Definition replace_cr (s : jsstring) : jsstring :=
  map (fun c => if c =? CR then LF else c) s.

(** [s.split(sep)] for a one-character separator: never empty. *)
Fixpoint split_on (sep : char) (s : jsstring) : list jsstring :=
  match s with
  | [] => [[]]
  | c :: s' =>
      if c =? sep then [] :: split_on sep s'
      else match split_on sep s' with
           | l :: ls => (c :: l) :: ls
           | [] => [[c]]
           end
  end.

(** [parts.join(sep)] for a one-character separator. *)
Fixpoint join (sep : char) (parts : list jsstring) : jsstring :=
  match parts with
  | [] => []
  | [p] => p
  | p :: ps => p ++ sep :: join sep ps
  end.

(** ** Regular expressions

    The fragment used by the source: a sequence of anchors and character
    classes, a class being matched once or under a greedy [*].
    [RegExp.prototype.test] looks for a match starting at any position. *)

Inductive item :=
  | Bol                       (* ^  (no m flag: start of input) *)
  | Eol                       (* $  (no m flag: end of input) *)
  | Cls (p : char -> bool)    (* one character of the class *)
  | Star (p : char -> bool).  (* class*, greedy with backtracking *)

Definition regex := list item.

(** [match_here r at_start s]: [r] matches a prefix of the remaining input
    [s]; [at_start] tells whether [s] is the whole input. *)
Fixpoint match_here (r : regex) (at_start : bool) (s : jsstring) : bool :=
  match r with
  | [] => true
  | Bol :: r' => at_start && match_here r' at_start s
  | Eol :: r' =>
      match s with [] => match_here r' at_start s | _ :: _ => false end
  | Cls p :: r' =>
      match s with
      | c :: s' => p c && match_here r' false s'
      | [] => false
      end
  | Star p :: r' =>
      (fix star (at_start : bool) (s : jsstring) : bool :=
         match s with
         | c :: s' =>
             (p c && star false s') || match_here r' at_start s
         | [] => match_here r' at_start s
         end) at_start s
  end.

Fixpoint search (r : regex) (at_start : bool) (s : jsstring) : bool :=
  match_here r at_start s
  || match s with
     | _ :: s' => search r false s'
     | [] => false
     end.

(** [r.test(s)] *)
Definition test (r : regex) (s : jsstring) : bool := search r true s.

(** [/^\d{2}:\d{2}:\d{2}\s*$/] *)
Definition timestampRegex : regex :=
  [ Bol;
    Cls is_digit; Cls is_digit; Cls (Z.eqb COLON);
    Cls is_digit; Cls is_digit; Cls (Z.eqb COLON);
    Cls is_digit; Cls is_digit;
    Star is_space; Eol ].

(** ** Numbers and their decimal text *)

(** [Number.MAX_SAFE_INTEGER]: sums, differences and products of integers,
    and [Math.floor] of their quotients, are computed exactly in binary64
    as long as the operands and the result do not exceed it in magnitude. *)
Definition MAX_SAFE_INTEGER : Z := 2 ^ 53 - 1.

Definition digit_val (c : char) : Z := c - 48.

Definition digits_value (s : jsstring) : Z :=
  fold_left (fun acc c => acc * 10 + digit_val c) s 0.

(** [Number(s)] on the strings the module produces and consumes: after
    stripping white space, the empty string is 0 and a run of decimal digits
    is its value.  Every other string (signs, fractions, exponents, radix
    prefixes, garbage) is outside the integer model and is [None]; garbage is
    [NaN] in JavaScript. *)
Definition Number (s : jsstring) : option Z :=
  let t := trim s in
  if forallb is_digit t then Some (digits_value t) else None.

(** Decimal digits of a non-negative integer, most significant first. *)
Fixpoint digits_of (fuel : nat) (n : Z) (acc : jsstring) : jsstring :=
  match fuel with
  | O => acc
  | S fuel' =>
      let acc' := (48 + n mod 10) :: acc in
      if n <? 10 then acc' else digits_of fuel' (n / 10) acc'
  end.

(** [n.toString()] for an integer [n]. *)
Definition toString (n : Z) : jsstring :=
  if n <? 0 then 45 :: digits_of (S (Z.to_nat (Z.log2 (- n)))) (- n) []
  else digits_of (S (Z.to_nat (Z.log2 n))) n [].

(** [s.padStart(2, "0")] *)
Definition padStart2 (s : jsstring) : jsstring :=
  repeat 48 (2 - length s)%nat ++ s.

(** ** The module's functions *)

Record Window := mkWindow {
  index : Z;
  from : jsstring;
  to : jsstring;
  text : jsstring
}.

(** [hhmmssToSeconds]: [parts[i]] beyond the end is [undefined], which makes
    the sum [NaN].  The sum is the code's as long as it does not exceed
    [MAX_SAFE_INTEGER]. *)
Definition hhmmssToSeconds (s : jsstring) : option Z :=
  match map Number (split_on COLON s) with
  | p0 :: p1 :: p2 :: _ =>
      h ← p0; m ← p1; sec ← p2; Some (h * 3600 + m * 60 + sec)
  | _ => None
  end.

(** [secondsToHHMMSS]: [%] is the truncating remainder; [Math.floor] of an
    integer quotient is the floor division.  The text is the code's for
    every integer [sec] of magnitude at most [MAX_SAFE_INTEGER]. *)
Definition secondsToHHMMSS (sec : Z) : jsstring :=
  let hours := sec / 3600 in
  let minutes := Z.rem sec 3600 / 60 in
  let seconds := Z.rem sec 60 in
  padStart2 (toString hours) ++ COLON ::
  padStart2 (toString minutes) ++ COLON :: padStart2 (toString seconds).

(** [Array.prototype.sort] with the comparator [(a, b) => key a - key b]:
    a stable sort by ascending key. *)
Section Sort.
Context {A : Type} (key : A -> Z).

Fixpoint insert_by (x : A) (l : list A) : list A :=
  match l with
  | [] => [x]
  | y :: l' => if key x <=? key y then x :: l else y :: insert_by x l'
  end.

Fixpoint sort_by (l : list A) : list A :=
  match l with
  | [] => []
  | x :: l' => insert_by x (sort_by l')
  end.
End Sort.

(** [Object.entries(o)] for an object whose keys are all array indices:
    the entries by ascending numeric key. *)
Definition Object_entries (o : gmap Z (list jsstring))
  : list (Z * list jsstring) :=
  sort_by fst (map_to_list o).

(** The local variables of the line walk. *)
Record walk_state := mkState {
  currentWindowIndex : Z;
  currentTimestamp : Z;
  windowContents : gmap Z (list jsstring)
}.

(** [if (!o[i]) o[i] = []; o[i].push(line)] *)
Definition push_line (i : Z) (line : jsstring) (o : gmap Z (list jsstring))
  : gmap Z (list jsstring) :=
  let o1 := match o !! i with Some _ => o | None => <[i := []]> o end in
  alter (fun ls => ls ++ [line]) i o1.

(** Search for the first timestamp line; [-1] when there is none. *)
Fixpoint find_first (lines : list jsstring) (i : Z) : Z :=
  match lines with
  | [] => -1
  | l :: ls => if test timestampRegex l then i else find_first ls (i + 1)
  end.

(** One iteration of the walk over [relevantLines]. *)
Definition step (windowDurationSeconds : Z) (st : walk_state)
  (line : jsstring) : option walk_state :=
  if test timestampRegex line then
    t ← hhmmssToSeconds (trim line);
    Some (mkState (t / windowDurationSeconds) t (windowContents st))
  else
    Some (mkState (currentWindowIndex st) (currentTimestamp st)
            (push_line (currentWindowIndex st) line (windowContents st))).

Fixpoint walk (windowDurationSeconds : Z) (st : walk_state)
  (lines : list jsstring) : option walk_state :=
  match lines with
  | [] => Some st
  | line :: rest =>
      st' ← step windowDurationSeconds st line;
      walk windowDurationSeconds st' rest
  end.

Definition is_blank (line : jsstring) : bool :=
  match trim line with [] => true | _ :: _ => false end.

(** One iteration of the blank-collapsing loop; the state is
    [(processedLines, lastWasEmpty)]. *)
Definition collapse_step (st : list jsstring * bool) (line : jsstring)
  : list jsstring * bool :=
  let '(processedLines, lastWasEmpty) := st in
  if is_blank line then
    (if lastWasEmpty then processedLines else processedLines ++ [[]], true)
  else (processedLines ++ [line], false).

Definition processLines (lines : list jsstring) : list jsstring :=
  fst (fold_left collapse_step lines ([], false)).

Definition bucket_text (lines : list jsstring) : jsstring :=
  trim (join LF (processLines lines)).

(** One iteration of the loop over [Object.entries(windowContents)].  The
    entry's key is the decimal text of the index and [Number.parseInt] reads
    it back ([parseInt_toString] below); the model keeps the number.
    [fromSeconds] and [toSeconds] are the code's as long as
    [windowDurationSeconds] does not exceed [MAX_SAFE_INTEGER]. *)
Definition build (windowDurationSeconds : Z) (windows : list Window)
  (entry : Z * list jsstring) : list Window :=
  let '(windowIndex, lines) := entry in
  let text := bucket_text lines in
  if (0 <? length text)%nat then
    let fromSeconds := windowIndex * windowDurationSeconds in
    let toSeconds := fromSeconds + windowDurationSeconds - 1 in
    windows ++ [ mkWindow windowIndex (secondsToHHMMSS fromSeconds)
                   (secondsToHHMMSS toSeconds) text ]
  else windows.

(** The lines of the input after normalisation and trimming. *)
Definition input_lines (raw : jsstring) : list jsstring :=
  let normalized := trim (replace_cr (replace_crlf raw)) in
  split_on LF normalized.

(** [lines.slice(firstTimestampIndex)], once a timestamp line is found. *)
Definition relevant_lines (raw : jsstring) : list jsstring :=
  drop (Z.to_nat (find_first (input_lines raw) 0)) (input_lines raw).

(** [splitTranscriptIntoWindows]; [None] only if a timestamp were [NaN]. *)
Definition splitTranscriptIntoWindows (raw : jsstring) (windowMinutes : Z)
  : option (list Window) :=
  let lines := input_lines raw in
  let firstTimestampIndex := find_first lines 0 in
  if firstTimestampIndex =? -1 then Some []
  else
    let relevantLines := relevant_lines raw in
    let windowDurationSeconds := windowMinutes * 60 in
    st ← walk windowDurationSeconds (mkState 0 0 ∅) relevantLines;
    let windows :=
      fold_left (build windowDurationSeconds)
        (Object_entries (windowContents st)) [] in
    Some (sort_by index windows).

(** ** The timestamp pattern in the words of the specification

    Exactly two digits, a colon, two digits, a colon, two digits, then
    optional trailing white space and nothing else. *)

Definition clock_text (d1 d2 d3 d4 d5 d6 : char) : jsstring :=
  [d1; d2; COLON; d3; d4; COLON; d5; d6].

Definition two_digits (a b : char) : Z := digit_val a * 10 + digit_val b.

Definition all_digits (ds : list char) : Prop :=
  Forall (fun d => is_digit d = true) ds.

Definition all_space (ws : jsstring) : Prop :=
  Forall (fun c => is_space c = true) ws.

Inductive timestamp_marker : jsstring -> Prop :=
  | marker_intro d1 d2 d3 d4 d5 d6 ws :
      all_digits [d1; d2; d3; d4; d5; d6] ->
      all_space ws ->
      timestamp_marker (clock_text d1 d2 d3 d4 d5 d6 ++ ws).

(** The second count a marker line stands for. *)
Definition clock_seconds (d1 d2 d3 d4 d5 d6 : char) : Z :=
  two_digits d1 d2 * 3600 + two_digits d3 d4 * 60 + two_digits d5 d6.

(** ** Blank-run collapsing in the words of the specification

    The lines are cut into maximal runs of equal blankness; a run of blank
    lines is replaced by one empty line, a run of other lines is kept. *)

Fixpoint runs (lines : list jsstring) : list (bool * list jsstring) :=
  match lines with
  | [] => []
  | l :: ls =>
      match runs ls with
      | (b, run) :: rest =>
          if Bool.eqb (is_blank l) b then (b, l :: run) :: rest
          else (is_blank l, [l]) :: (b, run) :: rest
      | [] => [(is_blank l, [l])]
      end
  end.

Definition collapse_run (r : bool * list jsstring) : list jsstring :=
  if r.1 then [[]] else r.2.

Definition collapse_blank_runs (lines : list jsstring) : list jsstring :=
  concat (map collapse_run (runs lines)).

(** ** Auxiliary notions used in the statements and proofs *)

Definition no_colon (s : jsstring) : Prop :=
  Forall (fun c => (c =? COLON) = false) s.

Definition key_le {A} (key : A -> Z) (a b : A) : Prop := key a <= key b.
Definition key_lt {A} (key : A -> Z) (a b : A) : Prop := key a < key b.

(** The window built from one bucket, if its text is not empty. *)
Definition entry_window (wds : Z) (entry : Z * list jsstring)
  : option Window :=
  let text := bucket_text entry.2 in
  if (0 <? length text)%nat then
    Some (mkWindow entry.1 (secondsToHHMMSS (entry.1 * wds))
            (secondsToHHMMSS (entry.1 * wds + wds - 1)) text)
  else None.

Definition windows_of (wds : Z) (o : gmap Z (list jsstring)) : list Window :=
  omap (entry_window wds) (Object_entries o).

(** The lines the loop appends from a given value of [lastWasEmpty]. *)
Fixpoint collapse_from (lastWasEmpty : bool) (lines : list jsstring)
  : list jsstring :=
  match lines with
  | [] => []
  | l :: ls =>
      if is_blank l then
        (if lastWasEmpty then collapse_from true ls
         else [] :: collapse_from true ls)
      else l :: collapse_from false ls
  end.

Fixpoint alternating (flags : list bool) : Prop :=
  match flags with
  | a :: (b :: _) as rest => a <> b /\ alternating rest
  | _ => True
  end.

(** The layout written by [secondsToHHMMSS] for a second count [sec]: an
    hours field of at least two digits, exactly two below one hundred hours,
    then two-digit minutes and seconds fields, colon separated. *)
Definition clock_of (sec : Z) (s : jsstring) : Prop :=
  exists hh m1 m2 s1 s2,
    s = hh ++ COLON :: [m1; m2] ++ COLON :: [s1; s2]
    /\ all_digits (hh ++ [m1; m2; s1; s2])
    /\ (2 <= length hh)%nat
    /\ (sec < 360000 -> length hh = 2%nat)
    /\ digits_value hh = sec / 3600
    /\ two_digits m1 m2 = sec mod 3600 / 60
    /\ two_digits s1 s2 = sec mod 60.

(** The layout the claim C8 asks of [from] and [to]: two-digit hours,
    minutes and seconds. *)
Definition two_digit_clock (s : jsstring) : Prop :=
  exists d1 d2 d3 d4 d5 d6,
    all_digits [d1; d2; d3; d4; d5; d6] /\ s = clock_text d1 d2 d3 d4 d5 d6.

(** The property keys are the decimal texts of the indices, and
    [Number.parseInt] reads the leading run of digits of a key: on the text
    of a non-negative integer this is the integer itself. *)
Fixpoint leading_digits (s : jsstring) : jsstring :=
  match s with
  | c :: s' => if is_digit c then c :: leading_digits s' else []
  | [] => []
  end.

Definition parseInt (s : jsstring) : option Z :=
  match leading_digits (trim s) with
  | [] => None
  | ds => Some (digits_value ds)
  end.

(** [k] is the window index of a timestamp line of [lines]. *)
Definition marker_index (wds : Z) (lines : list jsstring) (k : Z) : Prop :=
  exists m t,
    m ∈ lines /\ test timestampRegex m = true
    /\ hhmmssToSeconds (trim m) = Some t /\ 0 <= t /\ k = t / wds.

(** ** Further notions: the walk as a function of the lines *)

(** The window index a timestamp line stands for. *)
Definition line_index (wds : Z) (line : jsstring) : Z :=
  match hhmmssToSeconds (trim line) with
  | Some t => t / wds
  | None => 0
  end.

(** Each content line paired with the window index of the nearest
    timestamp line before it ([cur] before any timestamp line). *)
Fixpoint assigned (wds cur : Z) (lines : list jsstring)
  : list (Z * jsstring) :=
  match lines with
  | [] => []
  | l :: ls =>
      if test timestampRegex l then assigned wds (line_index wds l) ls
      else (cur, l) :: assigned wds cur ls
  end.

(** The content lines assigned to window [k], in input order. *)
Definition assigned_to (k : Z) (tagged : list (Z * jsstring))
  : list jsstring :=
  map snd (filter (fun p => p.1 = k) tagged).

(** The same text with Windows, respectively classic Mac, line endings. *)
Definition to_crlf (s : jsstring) : jsstring :=
  flat_map (fun c => if c =? LF then [CR; LF] else [c]) s.

Definition to_cr (s : jsstring) : jsstring :=
  map (fun c => if c =? LF then CR else c) s.

Definition no_cr (s : jsstring) : Prop := Forall (fun c => c <> CR) s.

(** What a bucket holds after more lines were appended to it. *)
Definition extend (old : option (list jsstring)) (more : list jsstring)
  : option (list jsstring) :=
  match more with
  | [] => old
  | _ :: _ => Some (default [] old ++ more)
  end.


(** The content lines of the input that belong to window [k]. *)
Definition window_lines (raw : jsstring) (wm k : Z) : list jsstring :=
  assigned_to k (assigned (wm * 60) 0 (relevant_lines raw)).

(** Some line is a timestamp marker. *)
Definition timestamp_marker_in (lines : list jsstring) : Prop :=
  exists m, m ∈ lines /\ timestamp_marker m.

(** [lf_runs_ok n s]: reading [s] after [n] consecutive line feeds never
    meets a third consecutive line feed. *)
Fixpoint lf_runs_ok (n : nat) (s : jsstring) : bool :=
  match s with
  | [] => true
  | c :: s' =>
      if c =? LF then (n <? 2)%nat && lf_runs_ok (S n) s'
      else lf_runs_ok 0 s'
  end.

Definition no_lf (s : jsstring) : Prop := Forall (fun c => c <> LF) s.

Fixpoint no_adjacent_empty (ls : list jsstring) : Prop :=
  match ls with
  | a :: (b :: _) as rest => ~ (a = [] /\ b = []) /\ no_adjacent_empty rest
  | _ => True
  end.

(** The number of colons of a text. *)
Definition colons (s : jsstring) : nat :=
  length (filter (fun c => c = COLON) s).

(** ** The page component ([app/page.tsx]) and the speech-score route

    [String.prototype.toLowerCase] is taken as a parameter [lower] of the
    functions that call it. *)

Definition SEMICOLON : char := 59.

(** String equality [a === b]. *)
Definition str_eq (a b : jsstring) : bool := bool_decide (a = b).

(** [list.includes(x)] *)
Definition includes (l : list jsstring) (x : jsstring) : bool :=
  existsb (str_eq x) l.

Definition allowed : list jsstring :=
  [ str "audio/webm"; str "audio/mpeg"; str "audio/wav"; str "audio/mp4";
    str "audio/aac"; str "audio/ogg"; str "audio/m4a" ].

(** [canonicalizeMime]; [(m || "")] is [m] on a string, and [split] never
    returns an empty array. *)
Definition canonicalizeMime (lower : jsstring -> jsstring) (m : jsstring)
  : jsstring :=
  let base := lower (trim (hd [] (split_on SEMICOLON m))) in
  if str_eq base (str "audio/x-wav") then str "audio/wav"
  else if str_eq base (str "audio/x-m4a") then str "audio/m4a"
  else if str_eq base (str "audio/mp3") then str "audio/mpeg"
  else if includes allowed base then base else str "audio/webm".

(** [mapMimeToFormat] of the speech-score route; [None] is [null]. *)
Definition mapMimeToFormat (m : jsstring) : option jsstring :=
  if str_eq m (str "audio/wav") then Some (str "wav")
  else if str_eq m (str "audio/mpeg") then Some (str "mp3")
  else if str_eq m (str "audio/ogg") then Some (str "ogg")
  else if str_eq m (str "audio/m4a") then Some (str "m4a")
  else if str_eq m (str "audio/webm") then Some (str "webm")
  else if str_eq m (str "audio/mp4") then Some (str "mp4")
  else if str_eq m (str "audio/aac") then Some (str "aac")
  else None.

(** [s.slice(0, e)] *)
Definition slice0 (s : jsstring) (e : Z) : jsstring :=
  if e <? 0 then take (Z.to_nat (Z.max (Z.of_nat (length s) + e) 0)) s
  else take (Z.to_nat e) s.



(** [normalizeAccent]; an absent or empty accent is falsy. *)
Definition normalizeAccent (lower : jsstring -> jsstring)
  (a : option jsstring) : jsstring :=
  match a with
  | None | Some [] => str "us"
  | Some a =>
      let s := lower a in
      if str_eq s (str "en-us") then str "us"
      else if str_eq s (str "en-gb") || str_eq s (str "gb-en")
              || str_eq s (str "uk") || str_eq s (str "en-uk")
      then str "gb"
      else if str_eq s (str "en-au") || str_eq s (str "au-en") then str "au"
      else s
  end.

(** Lower-casing of the letters A-Z, the behaviour of [toLowerCase] on
    ASCII text; used to run the functions on examples. *)
Definition ascii_lower (s : jsstring) : jsstring :=
  map (fun c => if (65 <=? c) && (c <=? 90) then c + 32 else c) s.

(** The accent aliases that [normalizeAccent] rewrites, and the vendor's
    accent codes it rewrites them to. *)
Definition accent_aliases : list jsstring :=
  [ str "en-us"; str "en-gb"; str "gb-en"; str "uk"; str "en-uk";
    str "en-au"; str "au-en" ].

Definition vendor_accents : list jsstring := [str "us"; str "gb"; str "au"].

(** ** Practice keys, quiz and favourites of the page component *)

Record Alt := mkAlt {
  level : jsstring;
  phrase : jsstring;
  explanation : jsstring
}.

(** [selection_reason] is flattened into its two fields. *)
Record Sentence := mkSentence {
  timestamp : option jsstring;
  original : jsstring;
  level_detected : option jsstring;
  selection_reason_type : jsstring;
  selection_reason_note : jsstring;
  alternatives : list Alt
}.

Record Vocab := mkVocab {
  word : jsstring;
  IPA : jsstring;
  definition : jsstring
}.

Record Results := mkResults {
  sentences : list Sentence;
  vocabulary : list Vocab
}.

Definition DCOLON : jsstring := str "::".

(** [`${sentence.timestamp ?? "t0"}::${sentence.original}::${alt.level}::${alt.phrase}`] *)
Definition getAltKey (sentence : Sentence) (alt : Alt) : jsstring :=
  default (str "t0") (timestamp sentence) ++ DCOLON ++ original sentence
  ++ DCOLON ++ level alt ++ DCOLON ++ phrase alt.

Definition getVocabKey (lower : jsstring -> jsstring) (w : jsstring)
  : jsstring :=
  str "vocab::" ++ lower w.

(** The default timestamp text of [getSentenceKey], as the source has it:
    the three characters U+201A, U+00C4, U+00EE. *)
Definition NO_TIMESTAMP : jsstring := [8218; 196; 238].

Definition getSentenceKey (sentence : Sentence) : jsstring :=
  default NO_TIMESTAMP (timestamp sentence) ++ str "|"
  ++ slice0 (original sentence) 120.

(** [s.split("::")]: the separators are found from the left and do not
    overlap. *)
Fixpoint split_dcolon (s : jsstring) : list jsstring :=
  match s with
  | [] => [[]]
  | c :: s' =>
      match s' with
      | d :: s'' =>
          if (c =? COLON) && (d =? COLON) then [] :: split_dcolon s''
          else match split_dcolon s' with
               | l :: ls => (c :: l) :: ls
               | [] => [[c]]
               end
      | [] => [[c]]
      end
  end.

(** What the resolvers return: the phrase to practise and its [meta]. *)
Inductive Meta :=
  | AltMeta (level reasonType reasonNote : jsstring)
  | VocabMeta (vocab : Vocab).

Record Resolved := mkResolved {
  resolved_phrase : jsstring;
  resolved_meta : Meta
}.

(** The inner loop of [resolveAltByKey] over [sentence.alternatives]. *)
Fixpoint find_alt (sentence : Sentence) (lvl phr : jsstring)
  (alts : list Alt) : option Resolved :=
  match alts with
  | [] => None
  | alt :: rest =>
      if str_eq (level alt) lvl && str_eq (phrase alt) phr then
        Some (mkResolved (phrase alt)
                (AltMeta (level alt) (selection_reason_type sentence)
                   (selection_reason_note sentence)))
      else find_alt sentence lvl phr rest
  end.

(** The outer loop of [resolveAltByKey] over [results.sentences]. *)
Fixpoint find_sentence_alt (ts orig lvl phr : jsstring)
  (ss : list Sentence) : option Resolved :=
  match ss with
  | [] => None
  | sentence :: rest =>
      if str_eq (default (str "t0") (timestamp sentence)) ts
         && str_eq (original sentence) orig
      then
        match find_alt sentence lvl phr (alternatives sentence) with
        | Some r => Some r
        | None => find_sentence_alt ts orig lvl phr rest
        end
      else find_sentence_alt ts orig lvl phr rest
  end.

(** [resolveAltByKey]; [None] is [null]. *)
Definition resolveAltByKey (results : Results) (key : jsstring)
  : option Resolved :=
  match split_dcolon key with
  | [ts; orig; lvl; phr] =>
      find_sentence_alt ts orig lvl phr (sentences results)
  | _ => None
  end.

(** [key.startsWith(p)] *)
Fixpoint startsWith (p key : jsstring) : bool :=
  match p, key with
  | [], _ => true
  | c :: p', d :: key' => (c =? d) && startsWith p' key'
  | _ :: _, [] => false
  end.

(** The loop of [resolveVocabByKey] over [results.vocabulary]. *)
Fixpoint find_vocab (lower : jsstring -> jsstring) (w : jsstring)
  (vs : list Vocab) : option Resolved :=
  match vs with
  | [] => None
  | vocab :: rest =>
      if str_eq (lower (word vocab)) w then
        Some (mkResolved (word vocab) (VocabMeta vocab))
      else find_vocab lower w rest
  end.

(** [resolveVocabByKey]; [key.slice(7)] drops the prefix "vocab::". *)
Definition resolveVocabByKey (lower : jsstring -> jsstring)
  (results : Results) (key : jsstring) : option Resolved :=
  if startsWith (str "vocab::") key then
    find_vocab lower (drop 7 key) (vocabulary results)
  else None.

Inductive QuizMode := ModeAlt | ModeVocab.

(** The [practiceQuiz] state; [index] is [quiz_index], [current] is left to
    the effect that resolves [queue[index]]. *)
Record PracticeQuiz := mkQuiz {
  quiz_open : bool;
  quiz_mode : option QuizMode;
  quiz_queue : list jsstring;
  quiz_index : Z;
  quiz_current : option Resolved
}.

(** [queue.push(key); if (key === clickedKey) startIndex = queue.length - 1] *)
Definition push_key (clickedKey : jsstring) (st : list jsstring * Z)
  (key : jsstring) : list jsstring * Z :=
  let queue := st.1 ++ [key] in
  (queue, if str_eq key clickedKey then Z.of_nat (length queue) - 1
          else st.2).

(** [startQuiz] *)
Definition startQuiz (lower : jsstring -> jsstring) (results : Results)
  (mode : QuizMode) (clickedKey : jsstring) : PracticeQuiz :=
  let st :=
    match mode with
    | ModeAlt =>
        fold_left
          (fun st sentence =>
             fold_left
               (fun st alt => push_key clickedKey st (getAltKey sentence alt))
               (alternatives sentence) st)
          (sentences results) ([], 0)
    | ModeVocab =>
        fold_left
          (fun st vocab =>
             push_key clickedKey st (getVocabKey lower (word vocab)))
          (vocabulary results) ([], 0)
    end in
  mkQuiz true (Some mode) st.1 st.2 None.

Inductive Direction := Prev | Next.

(** The state update of [navigateQuiz]. *)
Definition navigateQuiz (direction : Direction) (prev : PracticeQuiz)
  : PracticeQuiz :=
  let newIndex :=
    match direction with
    | Prev => quiz_index prev - 1
    | Next => quiz_index prev + 1
    end in
  if (newIndex <? 0) || (newIndex >=? Z.of_nat (length (quiz_queue prev)))
  then prev
  else mkQuiz (quiz_open prev) (quiz_mode prev) (quiz_queue prev) newIndex
         (quiz_current prev).

(** The [favorites] state: two sets of keys. *)
Record Favorites := mkFavorites {
  fav_sentences : gset jsstring;
  fav_vocabulary : gset jsstring
}.

(** [if (newKeys.has(key)) newKeys.delete(key) else newKeys.add(key)] *)
Definition toggle_key (key : jsstring) (keys : gset jsstring)
  : gset jsstring :=
  if decide (key ∈ keys) then keys ∖ {[key]} else {[key]} ∪ keys.

Definition toggleSentenceFavorite (sentence : Sentence) (prev : Favorites)
  : Favorites :=
  mkFavorites (toggle_key (getSentenceKey sentence) (fav_sentences prev))
    (fav_vocabulary prev).

Definition toggleVocabFavorite (lower : jsstring -> jsstring)
  (vocab : Vocab) (prev : Favorites) : Favorites :=
  mkFavorites (fav_sentences prev)
    (toggle_key (getVocabKey lower (word vocab)) (fav_vocabulary prev)).

(** The de-duplication of [vocabBag] in [handleAnalyze]: a filter that
    keeps a word unless its lower-cased text was seen before. *)
Fixpoint dedupVocab (lower : jsstring -> jsstring)
  (seenWords : gset jsstring) (vocabBag : list Vocab) : list Vocab :=
  match vocabBag with
  | [] => []
  | v :: rest =>
      let key := lower (word v) in
      if decide (key ∈ seenWords) then dedupVocab lower seenWords rest
      else v :: dedupVocab lower ({[key]} ∪ seenWords) rest
  end.

(** A key field that survives [split("::")]: it holds no "::" and does
    not end with a colon. *)
Fixpoint field_ok (s : jsstring) : bool :=
  match s with
  | [] => true
  | c :: s' =>
      match s' with
      | [] => negb (c =? COLON)
      | d :: _ => negb ((c =? COLON) && (d =? COLON)) && field_ok s'
      end
  end.

(** A text that holds no "::". *)
Fixpoint no_dcolon (s : jsstring) : bool :=
  match s with
  | [] => true
  | c :: s' =>
      match s' with
      | [] => true
      | d :: _ => negb ((c =? COLON) && (d =? COLON)) && no_dcolon s'
      end
  end.

(** The keys of the quiz queue, in display order. *)
Definition quiz_keys (lower : jsstring -> jsstring) (results : Results)
  (mode : QuizMode) : list jsstring :=
  match mode with
  | ModeAlt =>
      flat_map (fun s => map (getAltKey s) (alternatives s))
        (sentences results)
  | ModeVocab =>
      map (fun v => getVocabKey lower (word v)) (vocabulary results)
  end.

(** The quiz shows an item of its queue. *)
Definition quiz_in_range (q : PracticeQuiz) : Prop :=
  0 <= quiz_index q < Z.of_nat (length (quiz_queue q)).

(** ** The guard of the Analyze button

    [/(^|\n)\d{2}:\d{2}:\d{2}\s*(\n|$)/]: an alternation matches when one of
    its branches does, so the pattern is the union of its four expansions. *)

Definition clock_pattern : regex :=
  [ Cls is_digit; Cls is_digit; Cls (Z.eqb COLON);
    Cls is_digit; Cls is_digit; Cls (Z.eqb COLON);
    Cls is_digit; Cls is_digit; Star is_space ].

Definition hasTimestampRegex : list regex :=
  [ Bol :: clock_pattern ++ [Cls (Z.eqb LF)];
    Bol :: clock_pattern ++ [Eol];
    Cls (Z.eqb LF) :: clock_pattern ++ [Cls (Z.eqb LF)];
    Cls (Z.eqb LF) :: clock_pattern ++ [Eol] ].

(** [hasTimestamp] *)
Definition hasTimestamp (transcript : jsstring) : bool :=
  existsb (fun r => test r transcript) hasTimestampRegex.

(** [canAnalyze] *)
Definition canAnalyze (transcript : jsstring) (processing : bool) : bool :=
  hasTimestamp transcript
  && (40 <=? length (trim transcript))%nat
  && negb processing.

(** The text up to the first line feed. *)
Fixpoint first_line (s : jsstring) : jsstring :=
  match s with
  | [] => []
  | c :: s' => if c =? LF then [] else c :: first_line s'
  end.

(** Empty, or ending with a line feed. *)
Definition at_line_start (p : jsstring) : Prop :=
  p = [] \/ exists p', p = p' ++ [LF].

(** ** The speech-score request, from the quiz to the route *)

Record SpeechScoreRequest := mkRequest {
  expectedText : jsstring;
  audio_mime : jsstring;
  audio_base64 : jsstring;
  audio_durationMs : Z;
  accent : option jsstring;
  userId : option jsstring
}.

(** The request body built by [scoreQuizRecording]. *)
Definition scoreQuizRecording_body (current_phrase mimeType base64 : jsstring)
  (durationMs : Z) : SpeechScoreRequest :=
  mkRequest current_phrase mimeType base64 (Z.min durationMs 10000)
    (Some (str "us")) None.

(** An early error response of the route: HTTP status, [code], [message]. *)
Record Rejection := mkRejection {
  status : Z;
  code : jsstring;
  message : jsstring
}.

(** The validation at the head of the route's [POST], on a body of the
    declared type: the rejection returned, or the audio format with which
    the handler goes on. *)
Definition POST_validation (body : SpeechScoreRequest)
  : Rejection + jsstring :=
  if match expectedText body with [] => true | _ :: _ => false end
     || (500 <? length (expectedText body))%nat
  then inl (mkRejection 400 (str "invalid_input")
              (str "expectedText (1" ++ 8211 :: str "500 chars) required"))
  else if match audio_base64 body with [] => true | _ :: _ => false end
          || match audio_mime body with [] => true | _ :: _ => false end
  then inl (mkRejection 400 (str "invalid_input")
              (str "audio {mime, base64, durationMs} required"))
  else if audio_durationMs body >? 10000
  then inl (mkRejection 400 (str "audio_too_long") (str "Max 10 seconds"))
  else match mapMimeToFormat (audio_mime body) with
       | None => inl (mkRejection 400 (str "invalid_input")
                        (str "Unsupported audio MIME"))
       | Some audio_format => inr audio_format
       end.

(** ** Progress of the analysis in [handleAnalyze] *)

Inductive JobStatus := pending | ok | error.

Record WindowJob := mkJob {
  job_index : nat;
  job_status : JobStatus;
  job_errorCode : option jsstring
}.

Record Progress := mkProgress {
  total : Z;
  done : Z;
  failed : Z
}.

(** [windowJobs] and [progress]. *)
Record AnalysisState := mkAnalysis {
  windowJobs : list WindowJob;
  progress : Progress
}.

(** The state set before the requests are sent, for [n] windows. *)
Definition analysis_start (n : nat) : AnalysisState :=
  mkAnalysis (map (fun i => mkJob i pending None) (seq 0 n))
    (mkProgress (Z.of_nat n) 0 0).

(** How a window request ends: with an analysis, or with an error code. *)
Inductive Outcome := Analysed | Failed (errorCode : jsstring).

(** The state updates made by [processWindow windowIndex] when its request
    has ended. *)
Definition processWindow_settle (windowIndex : nat) (o : Outcome)
  (st : AnalysisState) : AnalysisState :=
  match o with
  | Analysed =>
      mkAnalysis
        (map (fun job =>
                if (job_index job =? windowIndex)%nat
                then mkJob (job_index job) ok (job_errorCode job) else job)
           (windowJobs st))
        (mkProgress (total (progress st)) (done (progress st) + 1)
           (failed (progress st)))
  | Failed errorCode =>
      mkAnalysis
        (map (fun job =>
                if (job_index job =? windowIndex)%nat
                then mkJob (job_index job) error (Some errorCode) else job)
           (windowJobs st))
        (mkProgress (total (progress st)) (done (progress st))
           (failed (progress st) + 1))
  end.

(** The window indices handed to [processWindow], batch by batch: the loop
    [for (i = 0; i < n; i += 3)] over [windows.slice(i, i + 3)]. *)
Fixpoint batches_from (fuel i n : nat) : list (list nat) :=
  match fuel with
  | O => []
  | S fuel' =>
      if (i <? n)%nat then
        map (fun batchIndex => (i + batchIndex)%nat) (seq 0 (min 3 (n - i)))
        :: batches_from fuel' (i + 3) n
      else []
  end.

Definition analysis_batches (n : nat) : list (list nat) := batches_from n 0 n.

Definition outcome_status (o : Outcome) : JobStatus :=
  match o with Analysed => ok | Failed _ => error end.

(** What holds after the requests of [processed] have ended. *)
Definition settled (n : nat) (outcomes : nat -> Outcome)
  (processed : list nat) (st : AnalysisState) : Prop :=
  map job_index (windowJobs st) = seq 0 n
  /\ total (progress st) = Z.of_nat n
  /\ done (progress st) + failed (progress st) = Z.of_nat (length processed)
  /\ forall job, job ∈ windowJobs st ->
       if decide (job_index job ∈ processed)
       then job_status job = outcome_status (outcomes (job_index job))
       else job_status job = pending.

(** * Properties *)

(** ** Characters *)

Lemma digit_not_space c : is_digit c = true -> is_space c = false.
Proof. unfold is_digit, is_space. intros H. lia. Qed.

Lemma digit_not_colon c : is_digit c = true -> (c =? COLON) = false.
Proof. unfold is_digit, COLON. lia. Qed.

Lemma digit_val_range c : is_digit c = true -> 0 <= digit_val c <= 9.
Proof. unfold is_digit, digit_val. lia. Qed.

(** ** Trimming *)

Lemma trimStart_space ws s : all_space ws -> trimStart (ws ++ s) = trimStart s.
Proof. induction 1 as [|c ws Hc _ IH]; simpl; [done|]. by rewrite Hc. Qed.

Lemma trimStart_nonspace c s : is_space c = false -> trimStart (c :: s) = c :: s.
Proof. intros H. simpl. by rewrite H. Qed.

Lemma all_space_rev ws : all_space ws -> all_space (rev ws).
Proof. apply Forall_rev. Qed.

Lemma trimStart_all_space ws : all_space ws -> trimStart ws = [].
Proof.
  intros H. rewrite <- (app_nil_r ws). by rewrite trimStart_space.
Qed.

Lemma trim_all_space ws : all_space ws -> trim ws = [].
Proof.
  intros H. unfold trim, trimEnd. rewrite (trimStart_all_space ws) by done.
  reflexivity.
Qed.

Lemma trimStart_spec s :
  exists ws, all_space ws /\ s = ws ++ trimStart s
    /\ (forall c t, trimStart s = c :: t -> is_space c = false).
Proof.
  induction s as [|c s (ws & Hws & Hs & Hh)]; simpl.
  - exists []. split; [constructor|]. split; [done|]. intros ? ? [=].
  - destruct (is_space c) eqn:Hc.
    + exists (c :: ws). split; [by constructor|]. split; [|done].
      simpl. by f_equal.
    + exists []. split; [constructor|]. split; [done|].
      by intros ? ? [= <- <-].
Qed.

Lemma trim_clock d1 d2 d3 d4 d5 d6 ws :
  all_digits [d1; d2; d3; d4; d5; d6] -> all_space ws ->
  trim (clock_text d1 d2 d3 d4 d5 d6 ++ ws) = clock_text d1 d2 d3 d4 d5 d6.
Proof.
  intros Hd Hw. unfold all_digits in Hd. rewrite !Forall_cons in Hd.
  destruct Hd as (H1 & _ & _ & _ & _ & H6 & _).
  unfold trim, clock_text. simpl app at 1.
  rewrite trimStart_nonspace by by apply digit_not_space.
  unfold trimEnd. change (d1 :: d2 :: COLON :: d3 :: d4 :: COLON :: d5 :: d6 :: ws)
    with ([d1; d2; COLON; d3; d4; COLON; d5] ++ d6 :: ws).
  rewrite rev_app_distr. simpl rev at 1.
  rewrite <- app_assoc, trimStart_space by by apply all_space_rev.
  simpl app. rewrite trimStart_nonspace by by apply digit_not_space.
  reflexivity.
Qed.

(** ** The regular expression *)

Lemma match_star_eol p b s :
  match_here [Star p; Eol] b s = forallb p s.
Proof.
  revert b. induction s as [|c s IH]; intros b; [done|].
  change (match_here [Star p; Eol] b (c :: s))
    with ((p c && match_here [Star p; Eol] false s) || false).
  rewrite IH. simpl. by rewrite orb_false_r.
Qed.

Lemma match_cls p r b c s :
  match_here (Cls p :: r) b (c :: s) = p c && match_here r false s.
Proof. reflexivity. Qed.

Lemma match_cls_nil p r b : match_here (Cls p :: r) b [] = false.
Proof. reflexivity. Qed.

Lemma search_bol_false r s : search (Bol :: r) false s = false.
Proof. induction s as [|c s IH]; simpl; [done|]. exact IH. Qed.

Lemma test_bol r s : test (Bol :: r) s = match_here r true s.
Proof.
  unfold test. destruct s as [|c s]; simpl.
  - by rewrite orb_false_r.
  - rewrite search_bol_false. by rewrite orb_false_r.
Qed.

Lemma forallb_all_space ws : forallb is_space ws = true <-> all_space ws.
Proof. unfold all_space. rewrite forallb_forall, Forall_forall.
  split; intros H x Hx; apply H; by apply list_elem_of_In. Qed.

Lemma test_clock d1 d2 d3 d4 d5 d6 ws :
  test timestampRegex (clock_text d1 d2 d3 d4 d5 d6 ++ ws)
  = is_digit d1 && (is_digit d2 && ((COLON =? COLON) && (is_digit d3 &&
     (is_digit d4 && ((COLON =? COLON) && (is_digit d5 && (is_digit d6
       && forallb is_space ws))))))).
Proof.
  unfold timestampRegex. rewrite test_bol. unfold clock_text.
  cbn [app]. by rewrite !match_cls, match_star_eol.
Qed.

Lemma test_timestampRegex_marker line :
  test timestampRegex line = true <-> timestamp_marker line.
Proof.
  split.
  - unfold timestampRegex. rewrite test_bol.
    destruct line as [|d1 [|d2 [|c1 [|d3 [|d4 [|c2 [|d5 [|d6 ws]]]]]]]];
      rewrite ?match_cls, ?match_cls_nil, ?andb_false_r; try discriminate.
    rewrite match_star_eol, !andb_true_iff.
    intros (H1 & H2 & Hc1 & H3 & H4 & Hc2 & H5 & H6 & Hws).
    apply Z.eqb_eq in Hc1, Hc2. subst c1 c2.
    apply (marker_intro d1 d2 d3 d4 d5 d6 ws).
    + unfold all_digits. by repeat constructor.
    + by apply forallb_all_space.
  - intros [d1 d2 d3 d4 d5 d6 ws Hd Hw]. rewrite test_clock.
    unfold all_digits in Hd. rewrite !Forall_cons in Hd.
    destruct Hd as (-> & -> & -> & -> & -> & -> & _).
    apply forallb_all_space in Hw. rewrite Hw. reflexivity.
Qed.

(** ** Reading a clock text *)

Lemma Number_two_digits a b :
  is_digit a = true -> is_digit b = true ->
  Number [a; b] = Some (two_digits a b).
Proof.
  intros Ha Hb. unfold Number, trim, trimEnd. simpl.
  rewrite (digit_not_space a Ha). simpl.
  rewrite (digit_not_space b Hb). simpl.
  rewrite Ha, Hb. reflexivity.
Qed.

Lemma split_on_plain s : no_colon s -> split_on COLON s = [s].
Proof.
  induction 1 as [|c s Hc _ IH]; simpl; [done|]. by rewrite Hc, IH.
Qed.

Lemma split_on_field p s :
  no_colon p -> split_on COLON (p ++ COLON :: s) = p :: split_on COLON s.
Proof.
  induction 1 as [|c p Hc _ IH]; simpl; [done|]. by rewrite Hc, IH.
Qed.

Lemma hhmmssToSeconds_fields h m s :
  no_colon h -> no_colon m -> no_colon s ->
  hhmmssToSeconds (h ++ COLON :: m ++ COLON :: s)
  = (a ← Number h; b ← Number m; c ← Number s;
     Some (a * 3600 + b * 60 + c)).
Proof.
  intros Hh Hm Hs. unfold hhmmssToSeconds.
  by rewrite !split_on_field, split_on_plain.
Qed.

Lemma digits_no_colon ds : all_digits ds -> no_colon ds.
Proof. intros H. eapply Forall_impl; [exact H|]. exact digit_not_colon. Qed.

Lemma hhmmssToSeconds_clock d1 d2 d3 d4 d5 d6 :
  all_digits [d1; d2; d3; d4; d5; d6] ->
  hhmmssToSeconds (clock_text d1 d2 d3 d4 d5 d6)
  = Some (clock_seconds d1 d2 d3 d4 d5 d6).
Proof.
  intros Hd. unfold all_digits in Hd. rewrite !Forall_cons in Hd.
  destruct Hd as (H1 & H2 & H3 & H4 & H5 & H6 & _).
  change (clock_text d1 d2 d3 d4 d5 d6)
    with ([d1; d2] ++ COLON :: [d3; d4] ++ COLON :: [d5; d6]).
  rewrite hhmmssToSeconds_fields
    by (apply digits_no_colon; by repeat constructor).
  rewrite !Number_two_digits by done. reflexivity.
Qed.

Lemma marker_seconds line :
  timestamp_marker line ->
  exists d1 d2 d3 d4 d5 d6 ws,
    line = clock_text d1 d2 d3 d4 d5 d6 ++ ws
    /\ all_digits [d1; d2; d3; d4; d5; d6] /\ all_space ws
    /\ hhmmssToSeconds (trim line) = Some (clock_seconds d1 d2 d3 d4 d5 d6).
Proof.
  intros [d1 d2 d3 d4 d5 d6 ws Hd Hw].
  exists d1, d2, d3, d4, d5, d6, ws. repeat split; try done.
  rewrite trim_clock by done. by apply hhmmssToSeconds_clock.
Qed.

(** ** The line walk *)

Lemma step_marker wds st d1 d2 d3 d4 d5 d6 ws :
  all_digits [d1; d2; d3; d4; d5; d6] -> all_space ws ->
  step wds st (clock_text d1 d2 d3 d4 d5 d6 ++ ws)
  = Some (mkState (clock_seconds d1 d2 d3 d4 d5 d6 / wds)
            (clock_seconds d1 d2 d3 d4 d5 d6) (windowContents st)).
Proof.
  intros Hd Hw. unfold step.
  assert (Ht : test timestampRegex (clock_text d1 d2 d3 d4 d5 d6 ++ ws) = true)
    by (apply test_timestampRegex_marker; by constructor).
  rewrite Ht, trim_clock, hhmmssToSeconds_clock by done. reflexivity.
Qed.

Lemma step_content wds st line :
  test timestampRegex line = false ->
  step wds st line
  = Some (mkState (currentWindowIndex st) (currentTimestamp st)
            (push_line (currentWindowIndex st) line (windowContents st))).
Proof. intros H. unfold step. by rewrite H. Qed.

Lemma step_total wds st line : is_Some (step wds st line).
Proof.
  destruct (test timestampRegex line) eqn:Ht.
  - apply test_timestampRegex_marker in Ht as [d1 d2 d3 d4 d5 d6 ws Hd Hw].
    rewrite step_marker by done. by eexists.
  - rewrite step_content by done. by eexists.
Qed.

Lemma walk_total wds lines : forall st, is_Some (walk wds st lines).
Proof.
  induction lines as [|l ls IH]; intros st; simpl; [by eexists|].
  destruct (step_total wds st l) as [st' ->]. simpl. apply IH.
Qed.

Lemma push_line_lookup i line (o : gmap Z (list jsstring)) j :
  push_line i line o !! j
  = if decide (i = j) then Some (default [] (o !! i) ++ [line]) else o !! j.
Proof.
  unfold push_line. destruct (decide (i = j)) as [<-|Hne].
  - rewrite lookup_alter_eq. destruct (o !! i) as [ls|] eqn:Hi.
    + by rewrite Hi.
    + by rewrite lookup_insert_eq.
  - rewrite lookup_alter_ne by done. destruct (o !! i); [done|].
    by rewrite lookup_insert_ne.
Qed.

(** A block of content lines accumulates, in order, in the current bucket. *)
Lemma walk_content_block wds block : forall st rest,
  Forall (fun l => test timestampRegex l = false) block ->
  exists st',
    walk wds st (block ++ rest) = walk wds st' rest
    /\ currentWindowIndex st' = currentWindowIndex st
    /\ currentTimestamp st' = currentTimestamp st
    /\ windowContents st' !! currentWindowIndex st
       = match block with
         | [] => windowContents st !! currentWindowIndex st
         | _ :: _ =>
             Some (default [] (windowContents st !! currentWindowIndex st)
                     ++ block)
         end
    /\ (forall j, j <> currentWindowIndex st ->
        windowContents st' !! j = windowContents st !! j).
Proof.
  induction block as [|l block IH]; intros st rest Hb.
  - exists st. by repeat split.
  - apply Forall_cons in Hb as [Hl Hb]. simpl.
    rewrite step_content by done. simpl.
    destruct (IH (mkState (currentWindowIndex st) (currentTimestamp st)
                    (push_line (currentWindowIndex st) l (windowContents st)))
                rest Hb) as (st' & Hw & Hi & Ht & Hc & Ho).
    simpl in *. exists st'. split; [done|]. split; [done|]. split; [done|].
    split.
    + rewrite Hc, push_line_lookup, decide_True by done.
      destruct block; simpl; [done|]. by rewrite <- app_assoc.
    + intros j Hj. rewrite Ho by done. rewrite push_line_lookup.
      by rewrite decide_False by done.
Qed.

(** ** Searching the first timestamp line *)

Lemma find_first_none lines : forall i,
  0 <= i ->
  (find_first lines i = -1
   <-> Forall (fun l => test timestampRegex l = false) lines)
  /\ (find_first lines i = -1 \/ i <= find_first lines i).
Proof.
  induction lines as [|l ls IH]; intros i Hi; simpl.
  - split; [|by left]. split; [constructor|done].
  - destruct (test timestampRegex l) eqn:Hl.
    + split; [|right; lia]. split; [lia|].
      intros H. apply Forall_cons in H as [H _]. congruence.
    + destruct (IH (i + 1) ltac:(lia)) as [IH1 IH2]. split; [|lia].
      rewrite IH1. split; [by constructor|]. intros H.
      by apply Forall_cons in H as [_ H].
Qed.

Lemma find_first_some lines : forall i,
  0 <= i -> find_first lines i <> -1 ->
  exists pre m rest,
    lines = pre ++ m :: rest
    /\ Forall (fun l => test timestampRegex l = false) pre
    /\ test timestampRegex m = true
    /\ drop (Z.to_nat (find_first lines i - i)) lines = m :: rest.
Proof.
  induction lines as [|l ls IH]; intros i Hi; simpl; [done|].
  destruct (test timestampRegex l) eqn:Hl.
  - intros _. exists [], l, ls. rewrite Z.sub_diag. by repeat split.
  - intros Hne. destruct (IH (i + 1) ltac:(lia) Hne)
      as (pre & m & rest & -> & Hpre & Hm & Hdrop).
    exists (l :: pre), m, rest. repeat split; [by constructor|done|].
    destruct (find_first_none (pre ++ m :: rest) (i + 1) ltac:(lia))
      as [_ [?|Hle]]; [done|].
    replace (Z.to_nat (find_first (pre ++ m :: rest) (i + 1) - i))
      with (S (Z.to_nat (find_first (pre ++ m :: rest) (i + 1) - (i + 1))))
      by lia.
    exact Hdrop.
Qed.

(** ** Sorting *)

Section SortFacts.
Context {A : Type} (key : A -> Z).

Lemma insert_by_perm x l : insert_by key x l ≡ₚ x :: l.
Proof.
  induction l as [|y l IH]; simpl; [done|].
  destruct (key x <=? key y); [done|]. rewrite IH. apply Permutation_swap.
Qed.

Lemma sort_by_perm l : sort_by key l ≡ₚ l.
Proof.
  induction l as [|x l IH]; simpl; [done|].
  by rewrite insert_by_perm, IH.
Qed.

Lemma insert_by_head x l :
  Forall (key_le key x) l -> insert_by key x l = x :: l.
Proof.
  destruct 1 as [|y l Hy _]; simpl; [done|].
  unfold key_le in Hy. by rewrite (proj2 (Z.leb_le _ _) Hy).
Qed.

(** Sorting a list that is already in ascending key order changes
    nothing. *)
Lemma sort_by_sorted l : StronglySorted (key_le key) l -> sort_by key l = l.
Proof.
  induction 1 as [|x l _ IH Hx]; simpl; [done|].
  rewrite IH. by apply insert_by_head.
Qed.

Lemma insert_by_ascending x l :
  StronglySorted (key_le key) l -> StronglySorted (key_le key) (insert_by key x l).
Proof.
  induction 1 as [|y l Hl IH Hy]; simpl.
  - repeat constructor.
  - destruct (key x <=? key y) eqn:Hxy.
    + apply Z.leb_le in Hxy. constructor; [by constructor|].
      constructor; [done|]. eapply Forall_impl; [exact Hy|].
      unfold key_le. intros; lia.
    + apply Z.leb_gt in Hxy. constructor; [done|].
      rewrite insert_by_perm. constructor; [unfold key_le; lia|done].
Qed.

Lemma sort_by_ascending l : StronglySorted (key_le key) (sort_by key l).
Proof.
  induction l as [|x l IH]; simpl; [constructor|].
  by apply insert_by_ascending.
Qed.

Lemma ascending_nodup_strict l :
  StronglySorted (key_le key) l -> NoDup (map key l) -> StronglySorted (key_lt key) l.
Proof.
  induction 1 as [|x l _ IH Hx]; simpl; intros Hnd; [constructor|].
  apply NoDup_cons in Hnd as [Hnotin Hnd]. constructor; [by apply IH|].
  apply Forall_forall. intros y Hy.
  rewrite Forall_forall in Hx. specialize (Hx y Hy).
  unfold key_le, key_lt in *.
  assert (key x <> key y); [|lia].
  intros Heq. apply Hnotin. rewrite Heq.
  apply list_elem_of_fmap. by exists y.
Qed.

Lemma strict_ascending l : StronglySorted (key_lt key) l -> StronglySorted (key_le key) l.
Proof.
  induction 1 as [|x l _ IH Hx]; constructor; [done|].
  eapply Forall_impl; [exact Hx|]. unfold key_le, key_lt. intros; lia.
Qed.
End SortFacts.

(** ** Enumerating the buckets *)

Lemma entries_lookup (o : gmap Z (list jsstring)) k ls :
  (k, ls) ∈ Object_entries o <-> o !! k = Some ls.
Proof.
  unfold Object_entries. rewrite sort_by_perm. apply elem_of_map_to_list.
Qed.

Lemma entries_strict (o : gmap Z (list jsstring)) :
  StronglySorted (key_lt fst) (Object_entries o).
Proof.
  unfold Object_entries. apply ascending_nodup_strict.
  - apply sort_by_ascending.
  - rewrite sort_by_perm. apply NoDup_fst_map_to_list.
Qed.

Lemma fold_build wds entries : forall acc,
  fold_left (build wds) entries acc = acc ++ omap (entry_window wds) entries.
Proof.
  induction entries as [|[k ls] es IH]; intros acc; simpl.
  - by rewrite app_nil_r.
  - rewrite IH. unfold entry_window. simpl.
    destruct (0 <? length (bucket_text ls))%nat; [|done].
    by rewrite <- app_assoc.
Qed.

Lemma entry_window_index wds e w : entry_window wds e = Some w -> index w = e.1.
Proof.
  unfold entry_window. destruct (0 <? _)%nat; [|done]. by intros [= <-].
Qed.

Lemma windows_strict wds es :
  StronglySorted (key_lt fst) es ->
  StronglySorted (key_lt index) (omap (entry_window wds) es).
Proof.
  induction 1 as [|e es _ IH He]; simpl; [constructor|].
  destruct (entry_window wds e) as [w|] eqn:Hw; [|done].
  constructor; [done|]. apply Forall_forall. intros w' Hw'.
  apply list_elem_of_omap in Hw' as (e' & He' & Hw').
  rewrite Forall_forall in He. specialize (He e' He').
  unfold key_lt in *.
  by rewrite (entry_window_index _ _ _ Hw), (entry_window_index _ _ _ Hw').
Qed.

(** ** The shape of the result *)

Lemma windows_of_sorted wds o :
  sort_by index (windows_of wds o) = windows_of wds o.
Proof.
  apply sort_by_sorted, strict_ascending, windows_strict, entries_strict.
Qed.

Lemma split_no_marker raw wm :
  Forall (fun l => test timestampRegex l = false) (input_lines raw) ->
  splitTranscriptIntoWindows raw wm = Some [].
Proof.
  intros H. unfold splitTranscriptIntoWindows.
  apply (find_first_none _ 0 ltac:(lia)) in H. by rewrite H.
Qed.

Lemma split_with_marker raw wm :
  find_first (input_lines raw) 0 <> -1 ->
  exists st,
    walk (wm * 60) (mkState 0 0 ∅) (relevant_lines raw) = Some st
    /\ splitTranscriptIntoWindows raw wm
       = Some (windows_of (wm * 60) (windowContents st)).
Proof.
  intros Hne. unfold splitTranscriptIntoWindows.
  destruct (Z.eqb_spec (find_first (input_lines raw) 0) (-1)); [done|].
  destruct (walk_total (wm * 60) (relevant_lines raw) (mkState 0 0 ∅))
    as [st Hst].
  exists st. split; [done|]. rewrite Hst. simpl.
  rewrite fold_build. simpl. fold (windows_of (wm * 60) (windowContents st)).
  by rewrite windows_of_sorted.
Qed.

Lemma split_total raw wm : is_Some (splitTranscriptIntoWindows raw wm).
Proof.
  destruct (decide (find_first (input_lines raw) 0 = -1)) as [He|Hne].
  - unfold splitTranscriptIntoWindows. rewrite He. by eexists.
  - destruct (split_with_marker raw wm Hne) as (st & _ & ->). by eexists.
Qed.

(** Every window comes from a bucket of the walk. *)
Lemma split_window raw wm ws w :
  splitTranscriptIntoWindows raw wm = Some ws -> w ∈ ws ->
  exists st lines,
    walk (wm * 60) (mkState 0 0 ∅) (relevant_lines raw) = Some st
    /\ find_first (input_lines raw) 0 <> -1
    /\ windowContents st !! index w = Some lines
    /\ text w = bucket_text lines
    /\ text w <> []
    /\ from w = secondsToHHMMSS (index w * (wm * 60))
    /\ to w = secondsToHHMMSS (index w * (wm * 60) + wm * 60 - 1).
Proof.
  intros Hs Hw.
  destruct (decide (find_first (input_lines raw) 0 = -1)) as [He|Hne].
  - unfold splitTranscriptIntoWindows in Hs. rewrite He in Hs.
    simpl in Hs. injection Hs as <-. by apply elem_of_nil in Hw.
  - destruct (split_with_marker raw wm Hne) as (st & Hst & Heq).
    rewrite Heq in Hs. injection Hs as <-.
    apply list_elem_of_omap in Hw as ([k ls] & Hin & Hw).
    apply entries_lookup in Hin. unfold entry_window in Hw. simpl in Hw.
    destruct (0 <? length (bucket_text ls))%nat eqn:Hlen; [|done].
    injection Hw as <-. simpl. exists st, ls. repeat split; try done.
    intros Hnil. rewrite Hnil in Hlen. simpl in Hlen. done.
Qed.

(** ** Collapsing blank lines *)

Lemma fold_collapse lines : forall acc flag,
  (fold_left collapse_step lines (acc, flag)).1
  = acc ++ collapse_from flag lines.
Proof.
  induction lines as [|l ls IH]; intros acc flag; simpl.
  - by rewrite app_nil_r.
  - destruct (is_blank l), flag; rewrite IH; try done;
      by rewrite <- app_assoc.
Qed.

Lemma processLines_from lines : processLines lines = collapse_from false lines.
Proof. unfold processLines. by rewrite fold_collapse. Qed.

Lemma collapse_from_runs lines :
  collapse_from false lines = collapse_blank_runs lines
  /\ collapse_from true lines
     = match runs lines with
       | (true, _) :: rest => concat (map collapse_run rest)
       | _ => collapse_blank_runs lines
       end.
Proof.
  unfold collapse_blank_runs.
  induction lines as [|l ls [IHf IHt]]; [done|]. simpl.
  rewrite IHf, IHt. clear IHf IHt.
  destruct (is_blank l) eqn:Hl, (runs ls) as [|[[|] run] rest]; simpl;
    rewrite ?Hl; done.
Qed.

(** [runs] cuts the list into its maximal runs of equal blankness. *)
Lemma runs_concat lines : concat (map snd (runs lines)) = lines.
Proof.
  induction lines as [|l ls IH]; [done|]. simpl.
  destruct (runs ls) as [|[b run] rest]; simpl in *; [by rewrite <- IH|].
  destruct (Bool.eqb (is_blank l) b); simpl; by rewrite <- IH.
Qed.

Lemma runs_uniform lines :
  Forall (fun r => r.2 <> [] /\ Forall (fun l => is_blank l = r.1) r.2)
    (runs lines).
Proof.
  induction lines as [|l ls IH]; simpl; [constructor|].
  destruct (runs ls) as [|[b run] rest].
  - by repeat constructor.
  - apply Forall_cons in IH as [[Hne Hrun] IH]. simpl in *.
    destruct (Bool.eqb (is_blank l) b) eqn:Hb.
    + apply Bool.eqb_prop in Hb. constructor; [|done]. simpl.
      split; [done|]. by constructor.
    + constructor; [simpl; split; [done|by repeat constructor]|].
      by constructor.
Qed.

Lemma runs_maximal lines : alternating (map fst (runs lines)).
Proof.
  induction lines as [|l ls IH]; simpl; [done|].
  destruct (runs ls) as [|[b run] rest]; [done|]. simpl in *.
  destruct (Bool.eqb (is_blank l) b) eqn:Hb; cbn [map fst alternating].
  - destruct rest; [done|]. exact IH.
  - split; [|exact IH]. intros Heq. by rewrite Heq, Bool.eqb_reflx in Hb.
Qed.

Lemma is_blank_nil : is_blank [] = true.
Proof. reflexivity. Qed.

Lemma collapse_from_content flag lines :
  filter (fun l => is_blank l = false) (collapse_from flag lines)
  = filter (fun l => is_blank l = false) lines.
Proof.
  revert flag. induction lines as [|l ls IH]; intros flag; [done|]. simpl.
  destruct (is_blank l) eqn:Hl.
  - rewrite filter_cons_False by (rewrite Hl; done).
    destruct flag; [apply IH|].
    rewrite filter_cons_False by (rewrite is_blank_nil; done). apply IH.
  - rewrite !filter_cons_True by done. by rewrite IH.
Qed.

Lemma collapse_from_all_blank lines :
  Forall (fun l => is_blank l = true) lines ->
  collapse_from true lines = []
  /\ (collapse_from false lines = [] \/ collapse_from false lines = [[]]).
Proof.
  induction 1 as [|l ls Hl _ [IHt IHf]]; cbn [collapse_from];
    [by split; [|left]|].
  rewrite Hl, IHt. split; [done|by right].
Qed.

Lemma bucket_text_all_blank lines :
  Forall (fun l => is_blank l = true) lines -> bucket_text lines = [].
Proof.
  intros H. unfold bucket_text. rewrite processLines_from.
  by destruct (collapse_from_all_blank lines H) as [_ [-> | ->]].
Qed.

(** ** Decimal text *)

Lemma digits_value_snoc ds d :
  digits_value (ds ++ [d]) = digits_value ds * 10 + digit_val d.
Proof. unfold digits_value. by rewrite fold_left_app. Qed.

Lemma digits_of_spec fuel : forall n acc,
  0 <= n < 2 ^ Z.of_nat (S fuel) ->
  exists ds,
    digits_of (S fuel) n acc = ds ++ acc /\ ds <> []
    /\ all_digits ds /\ digits_value ds = n.
Proof.
  assert (Hsmall : forall n, 0 <= n < 10 ->
    [48 + n mod 10] <> [] /\ all_digits [48 + n mod 10]
    /\ digits_value [48 + n mod 10] = n).
  { intros n Hn. rewrite Z.mod_small by lia. split; [done|]. split.
    - repeat constructor. unfold is_digit. lia.
    - unfold digits_value, digit_val. simpl. lia. }
  induction fuel as [|fuel IH]; intros n acc Hn.
  - change (2 ^ Z.of_nat 1) with 2 in Hn. cbn [digits_of].
    destruct (Z.ltb_spec n 10); [|lia].
    exists [48 + n mod 10]. split; [done|]. apply Hsmall. lia.
  - remember (S fuel) as f eqn:Hf. cbn [digits_of].
    destruct (Z.ltb_spec n 10) as [Hlt|Hge].
    + exists [48 + n mod 10]. split; [done|]. apply Hsmall. lia.
    + subst f.
      destruct (IH (n / 10) ((48 + n mod 10) :: acc))
        as (ds & -> & _ & Hd & Hv).
      { rewrite (Nat2Z.inj_succ (S fuel)), Z.pow_succ_r in Hn by lia.
        split; [apply Z.div_pos; lia|].
        apply Z.div_lt_upper_bound; lia. }
      exists (ds ++ [48 + n mod 10]). rewrite <- app_assoc.
      split; [done|]. split; [by destruct ds|]. split.
      * apply Forall_app. split; [done|]. repeat constructor.
        unfold is_digit. pose proof (Z.mod_pos_bound n 10). lia.
      * rewrite digits_value_snoc, Hv. unfold digit_val.
        pose proof (Z.div_mod n 10). lia.
Qed.

Lemma toString_digits n :
  0 <= n ->
  toString n <> [] /\ all_digits (toString n)
  /\ digits_value (toString n) = n.
Proof.
  intros Hn. unfold toString. destruct (Z.ltb_spec n 0); [lia|].
  destruct (digits_of_spec (Z.to_nat (Z.log2 n)) n [])
    as (ds & -> & Hne & Hd & Hv).
  - rewrite Nat2Z.inj_succ, Z2Nat.id by apply Z.log2_nonneg.
    destruct (Z.eq_dec n 0) as [->|Hpos]; [done|].
    split; [lia|]. apply Z.log2_spec. lia.
  - by rewrite app_nil_r.
Qed.

Lemma toString_one n : 0 <= n < 10 -> toString n = [48 + n].
Proof.
  intros Hn. unfold toString. destruct (Z.ltb_spec n 0); [lia|].
  cbn [digits_of]. destruct (Z.ltb_spec n 10); [|lia].
  by rewrite Z.mod_small by lia.
Qed.

Lemma toString_two n :
  10 <= n < 100 -> toString n = [48 + n / 10; 48 + n mod 10].
Proof.
  intros Hn. unfold toString. destruct (Z.ltb_spec n 0); [lia|].
  assert (Hlog : 3 <= Z.log2 n)
    by (change 3 with (Z.log2 10); apply Z.log2_le_mono; lia).
  destruct (Z.to_nat (Z.log2 n)) as [|fuel] eqn:Hf; [lia|].
  cbn [digits_of]. destruct (Z.ltb_spec n 10); [lia|].
  destruct (Z.ltb_spec (n / 10) 10) as [_|Hge].
  - rewrite (Z.mod_small (n / 10)); [done|].
    split; [apply Z.div_pos; lia|apply Z.div_lt_upper_bound; lia].
  - exfalso. assert (n / 10 < 10) by (apply Z.div_lt_upper_bound; lia). lia.
Qed.

(** Below one hundred, the padded text is exactly two digits. *)
Lemma padStart2_two n :
  0 <= n < 100 ->
  padStart2 (toString n) = [48 + n / 10; 48 + n mod 10].
Proof.
  intros Hn. destruct (Z.lt_ge_cases n 10).
  - rewrite toString_one by lia. unfold padStart2. simpl.
    rewrite Z.div_small, Z.mod_small by lia. reflexivity.
  - by rewrite toString_two by lia.
Qed.

Lemma two_digits_pad n :
  0 <= n < 100 ->
  is_digit (48 + n / 10) = true /\ is_digit (48 + n mod 10) = true
  /\ two_digits (48 + n / 10) (48 + n mod 10) = n.
Proof.
  intros Hn. unfold is_digit, two_digits, digit_val.
  pose proof (Z.div_mod n 10). pose proof (Z.mod_pos_bound n 10).
  assert (0 <= n / 10 < 10)
    by (split; [apply Z.div_pos; lia|apply Z.div_lt_upper_bound; lia]).
  lia.
Qed.

Lemma digits_value_zeros k ds :
  digits_value (repeat 48 k ++ ds) = digits_value ds.
Proof. induction k as [|k IH]; [done|]. exact IH. Qed.

Lemma padStart2_digits s :
  all_digits s ->
  all_digits (padStart2 s) /\ digits_value (padStart2 s) = digits_value s
  /\ (2 <= length (padStart2 s))%nat.
Proof.
  intros Hs. unfold padStart2. split; [|split].
  - apply Forall_app. split; [|done]. apply Forall_forall.
    intros c Hc. apply list_elem_of_In, repeat_spec in Hc. by subst c.
  - apply digits_value_zeros.
  - rewrite length_app, repeat_length. unfold char. lia.
Qed.

Lemma trim_no_space s :
  Forall (fun c => is_space c = false) s -> trim s = s.
Proof.
  intros Hs. assert (Hstart : forall t,
    Forall (fun c => is_space c = false) t -> trimStart t = t).
  { intros t [|c t' Hc _]; [done|]. by apply trimStart_nonspace. }
  unfold trim, trimEnd. rewrite (Hstart s Hs), Hstart.
  - apply rev_involutive.
  - by apply Forall_rev.
Qed.

Lemma Number_digits ds : all_digits ds -> Number ds = Some (digits_value ds).
Proof.
  intros Hd. unfold Number.
  rewrite trim_no_space
    by (eapply Forall_impl; [exact Hd|exact digit_not_space]).
  replace (forallb is_digit ds) with true; [done|].
  symmetry. apply forallb_forall. intros c Hc.
  unfold all_digits in Hd. rewrite Forall_forall in Hd.
  by apply Hd, list_elem_of_In.
Qed.

(** ** Clock texts *)

Lemma sixty_bounds sec :
  0 <= sec -> 0 <= sec / 3600 /\ 0 <= sec mod 3600 / 60 < 60
              /\ 0 <= sec mod 60 < 60
              /\ sec / 3600 * 3600 + sec mod 3600 / 60 * 60 + sec mod 60 = sec.
Proof. intros H. Z.to_euclidean_division_equations. lia. Qed.

Lemma secondsToHHMMSS_clock sec : 0 <= sec -> clock_of sec (secondsToHHMMSS sec).
Proof.
  intros Hsec. destruct (sixty_bounds sec Hsec) as (Hh & Hm & Hs & _).
  unfold secondsToHHMMSS. rewrite !Z.rem_mod_nonneg by lia.
  rewrite (padStart2_two (sec mod 3600 / 60)),
    (padStart2_two (sec mod 60)) by lia.
  destruct (toString_digits (sec / 3600) Hh) as (_ & Hd & Hv).
  destruct (padStart2_digits _ Hd) as (Hpd & Hpv & Hpl).
  destruct (two_digits_pad (sec mod 3600 / 60)) as (Hm1 & Hm2 & Hmv); [lia|].
  destruct (two_digits_pad (sec mod 60)) as (Hs1 & Hs2 & Hsv); [lia|].
  eexists _, _, _, _, _. split; [reflexivity|].
  split; [apply Forall_app; split; [done|by repeat constructor]|].
  split; [done|]. split; [|rewrite Hpv, Hv; by repeat split].
  intros Hlt. rewrite padStart2_two; [done|].
  split; [done|]. apply Z.div_lt_upper_bound; lia.
Qed.

Lemma clock_of_seconds sec s :
  0 <= sec -> clock_of sec s -> hhmmssToSeconds s = Some sec.
Proof.
  intros Hsec (hh & m1 & m2 & s1 & s2 & -> & Hd & _ & _ & Hh & Hm & Hs).
  apply Forall_app in Hd as [Hhh Hrest].
  unfold all_digits in Hrest. rewrite !Forall_cons in Hrest.
  destruct Hrest as (Hm1 & Hm2 & Hs1 & Hs2 & _).
  rewrite hhmmssToSeconds_fields.
  2-4: apply digits_no_colon; try done; by repeat constructor.
  rewrite (Number_digits hh Hhh), (Number_two_digits m1 m2 Hm1 Hm2),
    (Number_two_digits s1 s2 Hs1 Hs2). simpl.
  rewrite Hh, Hm, Hs. f_equal. by apply sixty_bounds.
Qed.

Lemma hhmmssToSeconds_secondsToHHMMSS sec :
  0 <= sec -> hhmmssToSeconds (secondsToHHMMSS sec) = Some sec.
Proof. intros H. by apply clock_of_seconds, secondsToHHMMSS_clock. Qed.

Lemma parseInt_toString n : 0 <= n -> parseInt (toString n) = Some n.
Proof.
  intros Hn. destruct (toString_digits n Hn) as (Hne & Hd & Hv).
  unfold parseInt. rewrite trim_no_space
    by (eapply Forall_impl; [exact Hd|exact digit_not_space]).
  assert (Htake : forall ds, all_digits ds -> leading_digits ds = ds).
  { induction 1 as [|c ds Hc _ IH]; simpl; [done|]. by rewrite Hc, IH. }
  rewrite Htake by done. destruct (toString n); [done|]. by rewrite <- Hv.
Qed.

(** ** Where bucket keys come from *)

Lemma clock_seconds_nonneg d1 d2 d3 d4 d5 d6 :
  all_digits [d1; d2; d3; d4; d5; d6] ->
  0 <= clock_seconds d1 d2 d3 d4 d5 d6 <= 362439.
Proof.
  intros Hd. unfold all_digits in Hd. rewrite !Forall_cons in Hd.
  destruct Hd as (H1 & H2 & H3 & H4 & H5 & H6 & _).
  apply digit_val_range in H1, H2, H3, H4, H5, H6.
  unfold clock_seconds, two_digits. lia.
Qed.

Lemma step_keys wds all st line st' :
  line ∈ all -> step wds st line = Some st' ->
  marker_index wds all (currentWindowIndex st) ->
  (forall k, is_Some (windowContents st !! k) -> marker_index wds all k) ->
  marker_index wds all (currentWindowIndex st')
  /\ (forall k, is_Some (windowContents st' !! k) -> marker_index wds all k).
Proof.
  intros Hin Hstep Hcur Hkeys.
  destruct (test timestampRegex line) eqn:Ht.
  - pose proof Ht as Hm. apply test_timestampRegex_marker in Hm.
    destruct (marker_seconds line Hm)
      as (d1 & d2 & d3 & d4 & d5 & d6 & ws & -> & Hd & Hw & Hsec).
    rewrite step_marker in Hstep by done. injection Hstep as <-. simpl.
    split; [|done]. eexists _, _. repeat split; try done.
    by apply clock_seconds_nonneg.
  - rewrite step_content in Hstep by done. injection Hstep as <-. simpl.
    split; [done|]. intros k. rewrite push_line_lookup.
    destruct (decide (currentWindowIndex st = k)) as [<-|]; [done|].
    apply Hkeys.
Qed.

Lemma walk_keys wds all lines : forall st st',
  (forall l, l ∈ lines -> l ∈ all) ->
  walk wds st lines = Some st' ->
  marker_index wds all (currentWindowIndex st) ->
  (forall k, is_Some (windowContents st !! k) -> marker_index wds all k) ->
  marker_index wds all (currentWindowIndex st')
  /\ (forall k, is_Some (windowContents st' !! k) -> marker_index wds all k).
Proof.
  induction lines as [|l ls IH]; intros st st' Hsub Hwalk Hcur Hkeys.
  - simpl in Hwalk. injection Hwalk as <-. by split.
  - simpl in Hwalk. destruct (step wds st l) as [st1|] eqn:Hstep; [|done].
    simpl in Hwalk.
    destruct (step_keys wds all st l st1) as [Hcur1 Hkeys1]; try done.
    { apply Hsub. by left. }
    apply (IH st1 st'); try done. intros l' Hl'. apply Hsub. by right.
Qed.

(** The relevant lines begin with a timestamp line. *)
Lemma relevant_lines_head raw :
  find_first (input_lines raw) 0 <> -1 ->
  exists m rest, relevant_lines raw = m :: rest
                 /\ test timestampRegex m = true.
Proof.
  intros Hne.
  destruct (find_first_some (input_lines raw) 0 ltac:(lia) Hne)
    as (pre & m & rest & _ & _ & Hm & Hdrop).
  rewrite Z.sub_0_r in Hdrop. by exists m, rest.
Qed.

Lemma relevant_keys raw wds st :
  find_first (input_lines raw) 0 <> -1 ->
  walk wds (mkState 0 0 ∅) (relevant_lines raw) = Some st ->
  forall k, is_Some (windowContents st !! k) ->
            marker_index wds (relevant_lines raw) k.
Proof.
  intros Hne Hwalk.
  destruct (relevant_lines_head raw Hne) as (m & rest & Heq & Hm).
  rewrite Heq in *. simpl in Hwalk.
  destruct (step wds (mkState 0 0 ∅) m) as [st1|] eqn:Hstep; [|done].
  simpl in Hwalk.
  assert (H1 : marker_index wds (m :: rest) (currentWindowIndex st1)
               /\ windowContents st1 = ∅).
  { apply test_timestampRegex_marker in Hm as Hmk.
    destruct (marker_seconds m Hmk)
      as (d1 & d2 & d3 & d4 & d5 & d6 & ws & -> & Hd & Hw & Hsec).
    rewrite step_marker in Hstep by done. injection Hstep as <-. simpl.
    split; [|done]. eexists _, _. split; [by left|].
    repeat split; try done. by apply clock_seconds_nonneg. }
  destruct H1 as [Hcur Hempty].
  apply (walk_keys wds (m :: rest) rest st1 st); try done.
  - intros l Hl. by right.
  - intros k. rewrite Hempty, lookup_empty. by intros [? ?].
Qed.

Lemma window_index_nonneg raw wm ws w :
  0 < wm -> splitTranscriptIntoWindows raw wm = Some ws -> w ∈ ws ->
  0 <= index w.
Proof.
  intros Hwm Hs Hw.
  destruct (split_window raw wm ws w Hs Hw)
    as (st & lines & Hwalk & Hne & Hlook & _).
  destruct (relevant_keys raw (wm * 60) st Hne Hwalk (index w))
    as (m & t & _ & _ & _ & Ht & ->); [by eexists|].
  apply Z.div_pos; lia.
Qed.

Lemma strict_map {A} (key : A -> Z) l :
  StronglySorted (key_lt key) l -> StronglySorted Z.lt (map key l).
Proof.
  induction 1 as [|x l _ IH Hx]; simpl; constructor; [done|].
  apply Forall_forall. intros k Hk.
  apply list_elem_of_fmap in Hk as (y & -> & Hy).
  rewrite Forall_forall in Hx. by apply Hx.
Qed.

Lemma strict_nodup l : StronglySorted Z.lt l -> NoDup l.
Proof.
  induction 1 as [|x l _ IH Hx]; constructor; [|done].
  intros Hin. rewrite Forall_forall in Hx. specialize (Hx x Hin). lia.
Qed.

Lemma split_result raw wm :
  exists ws,
    splitTranscriptIntoWindows raw wm = Some ws
    /\ StronglySorted (key_lt index) ws.
Proof.
  destruct (decide (find_first (input_lines raw) 0 = -1)) as [He|Hne].
  - exists []. split; [|constructor].
    unfold splitTranscriptIntoWindows. by rewrite He.
  - destruct (split_with_marker raw wm Hne) as (st & _ & ->).
    eexists. split; [done|]. apply windows_strict, entries_strict.
Qed.

(** * The claims *)

(** C1. For a strictly positive window duration, a timestamp line with
    components H, M, S sets the current window index to
    floor((H*3600 + M*60 + S) / (windowDurationMinutes*60)) and adds nothing
    to any bucket; the content lines that follow, up to the next timestamp
    line, are appended in order to the bucket of that index and to no other.
    A timestamp on a bucket boundary, 00:20:00 with 20-minute windows, goes
    to the next bucket, index 1. *)
Theorem C1_marker_sets_window_index
  (wm : Z) (st : walk_state) (d1 d2 d3 d4 d5 d6 : char) (ws : jsstring)
  (block rest : list jsstring) :
  0 < wm ->
  all_digits [d1; d2; d3; d4; d5; d6] -> all_space ws ->
  Forall (fun l => ~ timestamp_marker l) block ->
  let secs :=
    two_digits d1 d2 * 3600 + two_digits d3 d4 * 60 + two_digits d5 d6 in
  let idx := secs / (wm * 60) in
  idx * (wm * 60) <= secs < (idx + 1) * (wm * 60)
  /\ (exists st',
        walk (wm * 60) st ((clock_text d1 d2 d3 d4 d5 d6 ++ ws) :: block ++ rest)
        = walk (wm * 60) st' rest
        /\ currentWindowIndex st' = idx
        /\ windowContents st' !! idx
           = match block with
             | [] => windowContents st !! idx
             | _ :: _ => Some (default [] (windowContents st !! idx) ++ block)
             end
        /\ forall j, j <> idx -> windowContents st' !! j = windowContents st !! j)
  /\ splitTranscriptIntoWindows (str "00:19:59
A
00:20:00
B") 20
     = Some [ mkWindow 0 (str "00:00:00") (str "00:19:59") (str "A");
              mkWindow 1 (str "00:20:00") (str "00:39:59") (str "B") ].
Proof.
  intros Hwm Hd Hw Hblock secs idx.
  split; [|split; [|by vm_compute]].
  - subst idx. pose proof (Z.div_mod secs (wm * 60)).
    pose proof (Z.mod_pos_bound secs (wm * 60)). nia.
  - cbn [walk]. rewrite step_marker by done. cbn [mbind option_bind].
    fold secs idx.
    destruct (walk_content_block (wm * 60) block
                (mkState idx (clock_seconds d1 d2 d3 d4 d5 d6)
                   (windowContents st)) rest)
      as (st' & Hwalk & Hi & _ & Hc & Ho).
    { eapply Forall_impl; [exact Hblock|]. intros l Hl. simpl in Hl.
      destruct (test timestampRegex l) eqn:Ht; [|done].
      by apply test_timestampRegex_marker in Ht. }
    simpl in *. exists st'. by repeat split.
Qed.

Lemma C1_marker_sets_window_index_witness :
  exists st',
    walk (20 * 60) (mkState 0 0 ∅) [str "00:20:00"; str "B"] = Some st'
    /\ currentWindowIndex st' = 1.
Proof.
  destruct (C1_marker_sets_window_index 20 (mkState 0 0 ∅)
              48 48 50 48 48 48 [] [str "B"] [])
    as (_ & (st' & Hwalk & Hidx & _) & _).
  - lia.
  - repeat constructor.
  - constructor.
  - repeat constructor. intros H.
    apply test_timestampRegex_marker in H. vm_compute in H. discriminate.
  - exists st'. split; [exact Hwalk|exact Hidx].
Defined.

(** C2. A line of the normalised, trimmed input is treated as a timestamp
    marker exactly when it is two digits, a colon, two digits, a colon, two
    digits and then nothing but optional trailing white space: such a line
    only moves the current index, any other line is appended to the current
    bucket.  A line that holds a timestamp with something before it, or with
    something other than white space after it, is content. *)
Theorem C2_marker_iff_exact_pattern (line : jsstring) :
  (test timestampRegex line = true <-> timestamp_marker line)
  /\ (forall wds st,
        timestamp_marker line ->
        exists t, step wds st line
                  = Some (mkState (t / wds) t (windowContents st)))
  /\ (forall wds st,
        ~ timestamp_marker line ->
        step wds st line
        = Some (mkState (currentWindowIndex st) (currentTimestamp st)
                  (push_line (currentWindowIndex st) line
                     (windowContents st))))
  /\ (forall pre post d1 d2 d3 d4 d5 d6,
        all_digits [d1; d2; d3; d4; d5; d6] ->
        line = pre ++ clock_text d1 d2 d3 d4 d5 d6 ++ post ->
        pre <> [] \/ ~ all_space post ->
        ~ timestamp_marker line).
Proof.
  split; [apply test_timestampRegex_marker|]. split; [|split].
  - intros wds st [d1 d2 d3 d4 d5 d6 ws Hd Hw].
    eexists. by apply step_marker.
  - intros wds st Hn. apply step_content.
    destruct (test timestampRegex line) eqn:Ht; [|done].
    by apply test_timestampRegex_marker in Ht.
  - intros pre post d1 d2 d3 d4 d5 d6 Hd Heq Hor Hm.
    destruct Hm as [e1 e2 e3 e4 e5 e6 ws He Hw].
    destruct pre as [|c pre].
    + destruct Hor as [?|Hns]; [done|]. apply Hns.
      simpl in Heq. injection Heq as _ _ _ _ _ _ <-. done.
    + unfold all_digits in Hd. rewrite !Forall_cons in Hd.
      destruct Hd as (_ & _ & _ & _ & _ & H6 & _).
      assert (Hl : ((c :: pre) ++ clock_text d1 d2 d3 d4 d5 d6 ++ post)
                     !! (length (c :: pre) + 7)%nat = Some d6).
      { rewrite lookup_app_r by lia.
        replace (length (c :: pre) + 7 - length (c :: pre))%nat
          with 7%nat by lia. reflexivity. }
      rewrite <- Heq in Hl. rewrite lookup_app_r in Hl by (simpl; lia).
      apply list_elem_of_lookup_2 in Hl.
      unfold all_space in Hw. rewrite Forall_forall in Hw.
      specialize (Hw d6 Hl). rewrite digit_not_space in Hw; done.
Qed.

Lemma C2_marker_iff_exact_pattern_witness :
  test timestampRegex (str "00:01:00  ") = true
  /\ ~ timestamp_marker (str "at 00:01:00")
  /\ ~ timestamp_marker (str "00:01:00 Hello").
Proof.
  split; [reflexivity|]. split.
  - apply (proj2 (proj2 (proj2 (C2_marker_iff_exact_pattern (str "at 00:01:00"))))
             (str "at ") [] 48 48 48 49 48 48).
    + repeat constructor.
    + reflexivity.
    + left. discriminate.
  - apply (proj2 (proj2 (proj2
             (C2_marker_iff_exact_pattern (str "00:01:00 Hello"))))
             [] (str " Hello") 48 48 48 49 48 48).
    + repeat constructor.
    + reflexivity.
    + right. intros H. apply forallb_all_space in H. vm_compute in H.
      discriminate.
Defined.

(** C3. For every input and every strictly positive window duration the
    routine returns its windows in strictly increasing order of [index];
    no two of them have the same [index]. *)
Theorem C3_windows_strictly_increasing (raw : jsstring) (wm : Z) :
  0 < wm ->
  exists ws,
    splitTranscriptIntoWindows raw wm = Some ws
    /\ StronglySorted Z.lt (map index ws)
    /\ NoDup (map index ws).
Proof.
  intros _. destruct (split_result raw wm) as (ws & Hs & Hsorted).
  exists ws. split; [done|]. apply strict_map in Hsorted.
  split; [done|]. by apply strict_nodup.
Qed.

Lemma C3_windows_strictly_increasing_witness :
  exists ws,
    splitTranscriptIntoWindows (str "00:25:00
B
00:05:00
A") 20 = Some ws
    /\ StronglySorted Z.lt (map index ws)
    /\ NoDup (map index ws).
Proof. apply C3_windows_strictly_increasing. lia. Defined.

(** C4. An input none of whose lines is a timestamp marker yields the empty
    sequence, and no error; so does the input "just some text". *)
Theorem C4_no_timestamp_no_windows (raw : jsstring) (wm : Z) :
  Forall (fun l => ~ timestamp_marker l) (input_lines raw) ->
  splitTranscriptIntoWindows raw wm = Some []
  /\ splitTranscriptIntoWindows (str "just some text") wm = Some [].
Proof.
  intros H. split; [|reflexivity]. apply split_no_marker.
  eapply Forall_impl; [exact H|]. intros l Hl. simpl in Hl.
  destruct (test timestampRegex l) eqn:Ht; [|done].
  by apply test_timestampRegex_marker in Ht.
Qed.

Lemma C4_no_timestamp_no_windows_witness :
  splitTranscriptIntoWindows (str "Title
0:00:00 is not a marker
nor is 00:00:00 here") 20 = Some [].
Proof.
  apply (C4_no_timestamp_no_windows (str "Title
0:00:00 is not a marker
nor is 00:00:00 here") 20).
  match goal with
  | |- Forall _ ?l => let v := eval vm_compute in l in change l with v
  end.
  repeat constructor; intros H; apply test_timestampRegex_marker in H;
    vm_compute in H; discriminate.
Defined.

(** C5. In every bucket each maximal run of consecutive blank lines becomes
    a single empty line, and every other line is kept as it is and in
    order; the lines are then joined with newlines and the result is
    trimmed.  Here [runs] cuts a bucket into non-empty runs of lines of equal
    blankness, adjacent runs differing in blankness.  Three blank lines
    between two lines leave one blank line. *)
Theorem C5_blank_runs_collapse (raw : jsstring) (wm : Z) :
  0 < wm ->
  (forall lines,
     processLines lines = collapse_blank_runs lines
     /\ concat (map snd (runs lines)) = lines
     /\ Forall (fun r => r.2 <> [] /\ Forall (fun l => is_blank l = r.1) r.2)
          (runs lines)
     /\ alternating (map fst (runs lines))
     /\ filter (fun l => is_blank l = false) (processLines lines)
        = filter (fun l => is_blank l = false) lines
     /\ bucket_text lines = trim (join LF (collapse_blank_runs lines)))
  /\ (exists ws,
        splitTranscriptIntoWindows raw wm = Some ws
        /\ forall w, w ∈ ws ->
           exists st lines,
             walk (wm * 60) (mkState 0 0 ∅) (relevant_lines raw) = Some st
             /\ windowContents st !! index w = Some lines
             /\ text w = trim (join LF (collapse_blank_runs lines)))
  /\ bucket_text [str "A"; []; str "  "; []; str "B"] = str "A

B".
Proof.
  intros _.
  assert (Hp : forall lines, processLines lines = collapse_blank_runs lines).
  { intros lines. rewrite processLines_from. apply collapse_from_runs. }
  split; [|split; [|reflexivity]].
  - intros lines. split; [apply Hp|]. split; [apply runs_concat|].
    split; [apply runs_uniform|]. split; [apply runs_maximal|]. split.
    + rewrite processLines_from. apply collapse_from_content.
    + unfold bucket_text. by rewrite Hp.
  - destruct (split_total raw wm) as [ws Hs]. exists ws. split; [done|].
    intros w Hw.
    destruct (split_window raw wm ws w Hs Hw)
      as (st & lines & Hwalk & _ & Hlook & Htext & _).
    exists st, lines. split; [done|]. split; [done|].
    rewrite Htext. unfold bucket_text. by rewrite Hp.
Qed.

Lemma C5_blank_runs_collapse_witness :
  exists ws,
    splitTranscriptIntoWindows (str "00:00:00
A



B") 20 = Some ws
    /\ forall w, w ∈ ws -> text w = str "A

B".
Proof.
  destruct (C5_blank_runs_collapse (str "00:00:00
A



B") 20) as (_ & (ws & Hs & Hall) & _); [lia|].
  exists ws. split; [exact Hs|]. intros w Hw.
  vm_compute in Hs. injection Hs as <-.
  apply list_elem_of_singleton in Hw. subst w. reflexivity.
Defined.



(** C7. For every returned window, the second counts read back from its
    [from] and [to] fields satisfy
    to_seconds = from_seconds + windowDurationMinutes*60 - 1, that is
    to_seconds - from_seconds + 1 = windowDurationMinutes*60.  The window
    length in seconds is taken to be a safe integer, so that the code's
    number arithmetic is exact. *)
Theorem C7_to_is_from_plus_duration_minus_one (raw : jsstring) (wm : Z) :
  0 < wm -> wm * 60 <= MAX_SAFE_INTEGER ->
  exists ws,
    splitTranscriptIntoWindows raw wm = Some ws
    /\ forall w, w ∈ ws ->
       exists from_seconds to_seconds,
         hhmmssToSeconds (from w) = Some from_seconds
         /\ hhmmssToSeconds (to w) = Some to_seconds
         /\ to_seconds = from_seconds + wm * 60 - 1
         /\ to_seconds - from_seconds + 1 = wm * 60.
Proof.
  intros Hwm _. destruct (split_total raw wm) as [ws Hs].
  exists ws. split; [done|]. intros w Hw.
  pose proof (window_index_nonneg raw wm ws w Hwm Hs Hw) as Hidx.
  destruct (split_window raw wm ws w Hs Hw)
    as (_ & _ & _ & _ & _ & _ & _ & -> & ->).
  exists (index w * (wm * 60)), (index w * (wm * 60) + wm * 60 - 1).
  rewrite !hhmmssToSeconds_secondsToHHMMSS by nia.
  repeat split; lia.
Qed.

Lemma C7_to_is_from_plus_duration_minus_one_witness :
  exists ws,
    splitTranscriptIntoWindows (str "00:41:07
hello") 20 = Some ws
    /\ forall w, w ∈ ws ->
       exists from_seconds to_seconds,
         hhmmssToSeconds (from w) = Some from_seconds
         /\ hhmmssToSeconds (to w) = Some to_seconds
         /\ to_seconds = from_seconds + 20 * 60 - 1
         /\ to_seconds - from_seconds + 1 = 20 * 60.
Proof.
  apply C7_to_is_from_plus_duration_minus_one;
    [lia | unfold MAX_SAFE_INTEGER; lia].
Defined.

(** C8, as stated, fails: with 7-minute windows the timestamp 99:59:59 falls
    in the window that ends at second 360359, whose [to] field is
    "100:05:59", with a three-digit hours field. *)
Lemma C8_counterexample :
  exists w,
    splitTranscriptIntoWindows (str "99:59:59
x") 7 = Some [w]
    /\ from w = str "99:59:00" /\ to w = str "100:05:59"
    /\ ~ two_digit_clock (to w).
Proof.
  eexists. split; [by vm_compute|]. split; [reflexivity|].
  split; [reflexivity|].
  intros (d1 & d2 & d3 & d4 & d5 & d6 & _ & Heq). simpl in Heq.
  apply (f_equal length) in Heq. vm_compute in Heq. discriminate.
Qed.

(** C8, amended. For every returned window, [from] is the clock text of
    index*windowDurationMinutes*60 seconds and [to] that of the last second
    of the bucket, both computed from the window's [index] and the window
    duration only, whatever the input; a clock text has an hours field of at
    least two digits, of exactly two digits below one hundred hours, and
    two-digit minutes and seconds fields.  The window length in seconds is
    taken to be a safe integer, so that the code's number arithmetic is
    exact. *)
Theorem C8_from_to_derived_from_index (raw : jsstring) (wm : Z) :
  0 < wm -> wm * 60 <= MAX_SAFE_INTEGER ->
  exists ws,
    splitTranscriptIntoWindows raw wm = Some ws
    /\ (forall w, w ∈ ws ->
        from w = secondsToHHMMSS (index w * (wm * 60))
        /\ to w = secondsToHHMMSS (index w * (wm * 60) + wm * 60 - 1)
        /\ clock_of (index w * (wm * 60)) (from w)
        /\ clock_of (index w * (wm * 60) + wm * 60 - 1) (to w))
    /\ (forall raw' ws' w w',
        splitTranscriptIntoWindows raw' wm = Some ws' ->
        w ∈ ws -> w' ∈ ws' -> index w = index w' ->
        from w = from w' /\ to w = to w').
Proof.
  intros Hwm _. destruct (split_total raw wm) as [ws Hs].
  exists ws. split; [done|]. split.
  - intros w Hw.
    pose proof (window_index_nonneg raw wm ws w Hwm Hs Hw) as Hidx.
    destruct (split_window raw wm ws w Hs Hw)
      as (_ & _ & _ & _ & _ & _ & _ & Hf & Ht).
    rewrite Hf, Ht. repeat split; try done;
      apply secondsToHHMMSS_clock; nia.
  - intros raw' ws' w w' Hs' Hw Hw' Heq.
    destruct (split_window raw wm ws w Hs Hw)
      as (_ & _ & _ & _ & _ & _ & _ & -> & ->).
    destruct (split_window raw' wm ws' w' Hs' Hw')
      as (_ & _ & _ & _ & _ & _ & _ & -> & ->).
    by rewrite Heq.
Qed.

Lemma C8_from_to_derived_from_index_witness :
  exists ws,
    splitTranscriptIntoWindows (str "00:41:07
hello") 20 = Some ws
    /\ forall w, w ∈ ws ->
       from w = secondsToHHMMSS (index w * (20 * 60))
       /\ to w = secondsToHHMMSS (index w * (20 * 60) + 20 * 60 - 1).
Proof.
  destruct (C8_from_to_derived_from_index (str "00:41:07
hello") 20) as (ws & Hs & Hall & _);
    [lia | unfold MAX_SAFE_INTEGER; lia |].
  exists ws. split; [exact Hs|]. intros w Hw.
  destruct (Hall w Hw) as (Hf & Ht & _). split; [exact Hf|exact Ht].
Defined.

(** C9. The components of a timestamp line are not range checked: whatever
    digits it holds, the line is a marker, its second count is
    H*3600 + M*60 + S, and the walk goes on with the window index this count
    gives; the routine always returns.  99:99:99 stands for 362439 seconds,
    window 302 of 20 minutes. *)
Theorem C9_components_not_validated
  (d1 d2 d3 d4 d5 d6 : char) (ws : jsstring) (wds : Z) (st : walk_state) :
  all_digits [d1; d2; d3; d4; d5; d6] -> all_space ws ->
  let line := clock_text d1 d2 d3 d4 d5 d6 ++ ws in
  let secs :=
    two_digits d1 d2 * 3600 + two_digits d3 d4 * 60 + two_digits d5 d6 in
  test timestampRegex line = true
  /\ hhmmssToSeconds (trim line) = Some secs
  /\ 0 <= secs <= 362439
  /\ step wds st line = Some (mkState (secs / wds) secs (windowContents st))
  /\ (forall raw wm, is_Some (splitTranscriptIntoWindows raw wm))
  /\ hhmmssToSeconds (str "99:99:99") = Some 362439
  /\ splitTranscriptIntoWindows (str "99:99:99
x") 20 = Some [mkWindow 302 (str "100:40:00") (str "100:59:59") (str "x")].
Proof.
  intros Hd Hw line secs. split; [|split; [|split; [|split; [|split]]]].
  - apply test_timestampRegex_marker. by constructor.
  - subst line. rewrite trim_clock by done. by apply hhmmssToSeconds_clock.
  - by apply clock_seconds_nonneg.
  - by apply step_marker.
  - apply split_total.
  - split; reflexivity.
Qed.

Lemma C9_components_not_validated_witness :
  hhmmssToSeconds (trim (str "12:75:99  ")) = Some (12 * 3600 + 75 * 60 + 99).
Proof.
  destruct (C9_components_not_validated 49 50 55 53 57 57 (str "  ") 1200
              (mkState 0 0 ∅)) as (_ & H & _).
  - repeat constructor.
  - repeat constructor.
  - exact H.
Defined.

(** C10. For every input and every strictly positive window duration, the
    [index] of every returned window is floor(hhmmssToSeconds(m) /
    (windowDurationMinutes*60)) for a timestamp line m of the input that is
    the first timestamp line or comes after it. *)
Theorem C10_index_comes_from_a_marker (raw : jsstring) (wm : Z) :
  0 < wm ->
  exists ws,
    splitTranscriptIntoWindows raw wm = Some ws
    /\ forall w, w ∈ ws ->
       (exists header first rest,
          input_lines raw = header ++ first :: rest
          /\ Forall (fun l => ~ timestamp_marker l) header
          /\ timestamp_marker first
          /\ relevant_lines raw = first :: rest)
       /\ exists m t,
            m ∈ relevant_lines raw /\ timestamp_marker m
            /\ hhmmssToSeconds (trim m) = Some t
            /\ index w = t / (wm * 60).
Proof.
  intros _. destruct (split_total raw wm) as [ws Hs].
  exists ws. split; [done|]. intros w Hw.
  destruct (split_window raw wm ws w Hs Hw)
    as (st & lines & Hwalk & Hne & Hlook & _).
  split.
  - destruct (find_first_some (input_lines raw) 0 ltac:(lia) Hne)
      as (pre & m & rest & Heq & Hpre & Hm & Hdrop).
    exists pre, m, rest. split; [done|]. split; [|split].
    + eapply Forall_impl; [exact Hpre|]. intros l Hl Hmk. simpl in Hl.
      apply test_timestampRegex_marker in Hmk. congruence.
    + by apply test_timestampRegex_marker.
    + unfold relevant_lines. by rewrite Z.sub_0_r in Hdrop.
  - destruct (relevant_keys raw (wm * 60) st Hne Hwalk (index w))
      as (m & t & Hin & Hm & Ht & _ & Hk); [by eexists|].
    exists m, t. split; [done|]. split; [|done].
    by apply test_timestampRegex_marker.
Qed.

Lemma C10_index_comes_from_a_marker_witness :
  exists ws,
    splitTranscriptIntoWindows (str "Title
00:41:07
hello") 20 = Some ws
    /\ forall w, w ∈ ws ->
       exists m t,
         m ∈ relevant_lines (str "Title
00:41:07
hello")
         /\ hhmmssToSeconds (trim m) = Some t /\ index w = t / (20 * 60).
Proof.
  destruct (C10_index_comes_from_a_marker (str "Title
00:41:07
hello") 20) as (ws & Hs & Hall); [lia|].
  exists ws. split; [exact Hs|]. intros w Hw.
  destruct (Hall w Hw) as (_ & m & t & Hin & _ & Ht & Hidx).
  exists m, t. split; [exact Hin|]. split; [exact Ht|exact Hidx].
Defined.

(** * Further properties of the windowing routine *)

(** ** Round trips between second counts and clock texts *)

(** X1. Reading back the clock text of a non-negative second count that is
    a safe integer gives the count again, however many digits the hours
    field takes. *)
Theorem X1_seconds_text_roundtrip (sec : Z) :
  0 <= sec <= MAX_SAFE_INTEGER ->
  hhmmssToSeconds (secondsToHHMMSS sec) = Some sec.
Proof. intros [Hsec _]. by apply hhmmssToSeconds_secondsToHHMMSS. Qed.

Lemma X1_seconds_text_roundtrip_witness :
  hhmmssToSeconds (secondsToHHMMSS 362439) = Some 362439.
Proof.
  apply X1_seconds_text_roundtrip. unfold MAX_SAFE_INTEGER. lia.
Defined.

Lemma digit_of_val d : is_digit d = true -> 48 + digit_val d = d.
Proof. unfold digit_val. lia. Qed.

Lemma two_digits_split a b :
  is_digit a = true -> is_digit b = true ->
  0 <= two_digits a b < 100
  /\ 48 + two_digits a b / 10 = a /\ 48 + two_digits a b mod 10 = b.
Proof.
  intros Ha Hb. apply digit_val_range in Ha as Ha', Hb as Hb'.
  unfold two_digits. split; [lia|].
  assert ((digit_val a * 10 + digit_val b) / 10 = digit_val a
          /\ (digit_val a * 10 + digit_val b) mod 10 = digit_val b)
    as [-> ->] by (Z.to_euclidean_division_equations; lia).
  by rewrite !digit_of_val.
Qed.

(** X2. A clock text whose minutes and seconds are below sixty is printed
    back unchanged from its second count. *)
Theorem X2_text_seconds_roundtrip (d1 d2 d3 d4 d5 d6 : char) :
  all_digits [d1; d2; d3; d4; d5; d6] ->
  two_digits d3 d4 < 60 -> two_digits d5 d6 < 60 ->
  exists sec,
    hhmmssToSeconds (clock_text d1 d2 d3 d4 d5 d6) = Some sec
    /\ secondsToHHMMSS sec = clock_text d1 d2 d3 d4 d5 d6.
Proof.
  intros Hd Hm Hs. exists (clock_seconds d1 d2 d3 d4 d5 d6).
  split; [by apply hhmmssToSeconds_clock|].
  unfold all_digits in Hd. rewrite !Forall_cons in Hd.
  destruct Hd as (H1 & H2 & H3 & H4 & H5 & H6 & _).
  destruct (two_digits_split d1 d2 H1 H2) as (Hh & Hh1 & Hh2).
  destruct (two_digits_split d3 d4 H3 H4) as (Hm' & Hm1 & Hm2).
  destruct (two_digits_split d5 d6 H5 H6) as (Hs' & Hs1 & Hs2).
  unfold secondsToHHMMSS, clock_seconds.
  set (h := two_digits d1 d2) in *. set (m := two_digits d3 d4) in *.
  set (s := two_digits d5 d6) in *.
  rewrite !Z.rem_mod_nonneg by lia.
  assert ((h * 3600 + m * 60 + s) / 3600 = h
          /\ (h * 3600 + m * 60 + s) mod 3600 / 60 = m
          /\ (h * 3600 + m * 60 + s) mod 60 = s) as (-> & -> & ->)
    by (Z.to_euclidean_division_equations; lia).
  rewrite !padStart2_two by lia.
  rewrite Hh1, Hh2, Hm1, Hm2, Hs1, Hs2. reflexivity.
Qed.

Lemma X2_text_seconds_roundtrip_witness :
  exists sec,
    hhmmssToSeconds (str "07:41:59") = Some sec
    /\ secondsToHHMMSS sec = str "07:41:59".
Proof.
  apply (X2_text_seconds_roundtrip 48 55 52 49 53 57).
  - repeat constructor.
  - vm_compute. reflexivity.
  - vm_compute. reflexivity.
Defined.

(** ** Line endings and header *)

Lemma split_by_input_lines raw1 raw2 wm :
  input_lines raw1 = input_lines raw2 ->
  splitTranscriptIntoWindows raw1 wm = splitTranscriptIntoWindows raw2 wm.
Proof.
  intros H. unfold splitTranscriptIntoWindows, relevant_lines. by rewrite H.
Qed.

Lemma replace_cr_id s : no_cr s -> replace_cr s = s.
Proof.
  induction 1 as [|c s Hc _ IH]; [done|]. unfold replace_cr in *. simpl.
  rewrite IH. by destruct (Z.eqb_spec c CR).
Qed.

Lemma replace_crlf_cons c s :
  c <> CR -> replace_crlf (c :: s) = c :: replace_crlf s.
Proof.
  intros Hc. simpl. destruct s as [|d s]; [done|].
  by destruct (Z.eqb_spec c CR).
Qed.

Lemma replace_crlf_to_crlf s : no_cr s -> replace_crlf (to_crlf s) = s.
Proof.
  induction 1 as [|c s Hc _ IH]; [done|]. unfold to_crlf in *. simpl.
  destruct (Z.eqb_spec c LF) as [->|Hlf].
  - change (replace_crlf ([CR; LF] ++ flat_map
      (fun c => if c =? LF then [CR; LF] else [c]) s))
      with (LF :: replace_crlf (flat_map
        (fun c => if c =? LF then [CR; LF] else [c]) s)).
    by rewrite IH.
  - simpl app. by rewrite replace_crlf_cons, IH.
Qed.

Lemma replace_crlf_no_lf s :
  Forall (fun c => c <> LF) s -> replace_crlf s = s.
Proof.
  induction 1 as [|c s Hc Hs IH]; [done|]. simpl.
  destruct s as [|d s]; [done|].
  apply Forall_cons in Hs as [Hd _].
  destruct (Z.eqb_spec d LF); [done|]. rewrite andb_false_r. by rewrite IH.
Qed.

Lemma to_cr_no_lf s : Forall (fun c => c <> LF) (to_cr s).
Proof.
  unfold to_cr. apply Forall_forall. intros c Hc.
  apply list_elem_of_fmap in Hc as (d & -> & _).
  destruct (Z.eqb_spec d LF); [discriminate|done].
Qed.

Lemma replace_cr_to_cr s : no_cr s -> replace_cr (to_cr s) = s.
Proof.
  induction 1 as [|c s Hc _ IH]; [done|]. unfold replace_cr, to_cr in *.
  simpl. rewrite IH. destruct (Z.eqb_spec c LF) as [->|]; [done|].
  by destruct (Z.eqb_spec c CR).
Qed.

Lemma replace_crlf_no_cr s : no_cr s -> replace_crlf s = s.
Proof.
  induction 1 as [|c s Hc _ IH]; [done|]. by rewrite replace_crlf_cons, IH.
Qed.

Lemma normalize_no_cr s : no_cr s -> replace_cr (replace_crlf s) = s.
Proof. intros H. by rewrite replace_crlf_no_cr, replace_cr_id. Qed.

(** X3. The result does not depend on the line-ending convention: a
    transcript written with LF gives the same windows when every line
    ending is CR LF, and when every line ending is a lone CR. *)
Theorem X3_line_endings_irrelevant (raw : jsstring) (wm : Z) :
  no_cr raw ->
  splitTranscriptIntoWindows (to_crlf raw) wm
  = splitTranscriptIntoWindows raw wm
  /\ splitTranscriptIntoWindows (to_cr raw) wm
     = splitTranscriptIntoWindows raw wm.
Proof.
  intros Hraw. split; apply split_by_input_lines; unfold input_lines;
    rewrite (normalize_no_cr raw Hraw).
  - by rewrite replace_crlf_to_crlf, replace_cr_id.
  - rewrite (replace_crlf_no_lf (to_cr raw)) by apply to_cr_no_lf.
    by rewrite replace_cr_to_cr.
Qed.

Lemma X3_line_endings_irrelevant_witness :
  splitTranscriptIntoWindows (to_crlf (str "Title
00:00:00
Hello")) 20
  = splitTranscriptIntoWindows (str "Title
00:00:00
Hello") 20.
Proof.
  refine (proj1 (X3_line_endings_irrelevant (str "Title
00:00:00
Hello") 20 _)).
  match goal with
  | |- no_cr ?l => let v := eval vm_compute in l in change l with v
  end.
  repeat constructor; discriminate.
Defined.

Lemma find_first_app pre m rest : forall i,
  Forall (fun l => test timestampRegex l = false) pre ->
  test timestampRegex m = true ->
  find_first (pre ++ m :: rest) i = i + Z.of_nat (length pre).
Proof.
  induction pre as [|l pre IH]; intros i Hpre Hm; simpl.
  - rewrite Hm. lia.
  - apply Forall_cons in Hpre as [Hl Hpre]. rewrite Hl, IH by done. lia.
Qed.

Lemma relevant_lines_header raw pre m rest :
  input_lines raw = pre ++ m :: rest ->
  Forall (fun l => test timestampRegex l = false) pre ->
  test timestampRegex m = true ->
  find_first (input_lines raw) 0 <> -1 /\ relevant_lines raw = m :: rest.
Proof.
  intros Heq Hpre Hm. unfold relevant_lines.
  rewrite Heq, find_first_app by done. split; [lia|].
  rewrite Z.add_0_l, Nat2Z.id. by rewrite drop_app_length.
Qed.

Lemma not_marker_test l : ~ timestamp_marker l -> test timestampRegex l = false.
Proof.
  intros H. destruct (test timestampRegex l) eqn:Ht; [|done].
  by apply test_timestampRegex_marker in Ht.
Qed.

Lemma split_by_relevant_lines raw1 raw2 wm :
  find_first (input_lines raw1) 0 <> -1 ->
  find_first (input_lines raw2) 0 <> -1 ->
  relevant_lines raw1 = relevant_lines raw2 ->
  splitTranscriptIntoWindows raw1 wm = splitTranscriptIntoWindows raw2 wm.
Proof.
  intros H1 H2 Heq. unfold splitTranscriptIntoWindows.
  destruct (Z.eqb_spec (find_first (input_lines raw1) 0) (-1)); [done|].
  destruct (Z.eqb_spec (find_first (input_lines raw2) 0) (-1)); [done|].
  by rewrite Heq.
Qed.

(** X4. Whatever precedes the first timestamp line is discarded: two
    inputs whose lines agree from their first timestamp line on give the
    same windows, so a transcript with a header gives the windows of the
    transcript without it. *)
Theorem X4_header_is_discarded
  (raw1 raw2 : jsstring) (wm : Z) (header1 header2 : list jsstring)
  (first : jsstring) (rest : list jsstring) :
  input_lines raw1 = header1 ++ first :: rest ->
  input_lines raw2 = header2 ++ first :: rest ->
  Forall (fun l => ~ timestamp_marker l) header1 ->
  Forall (fun l => ~ timestamp_marker l) header2 ->
  timestamp_marker first ->
  splitTranscriptIntoWindows raw1 wm = splitTranscriptIntoWindows raw2 wm.
Proof.
  intros H1 H2 Hh1 Hh2 Hm. apply test_timestampRegex_marker in Hm.
  assert (Hpre : forall h, Forall (fun l => ~ timestamp_marker l) h ->
            Forall (fun l => test timestampRegex l = false) h).
  { intros h Hh. eapply Forall_impl; [exact Hh|]. exact not_marker_test. }
  destruct (relevant_lines_header raw1 header1 first rest) as [Hn1 Hr1];
    auto.
  destruct (relevant_lines_header raw2 header2 first rest) as [Hn2 Hr2];
    auto.
  apply split_by_relevant_lines; [done|done|]. by rewrite Hr1, Hr2.
Qed.

Lemma X4_header_is_discarded_witness :
  splitTranscriptIntoWindows (str "Title
by someone
00:00:00
Hello") 20
  = splitTranscriptIntoWindows (str "00:00:00
Hello") 20.
Proof.
  apply (X4_header_is_discarded _ _ 20 [str "Title"; str "by someone"] []
           (str "00:00:00") [str "Hello"]).
  - reflexivity.
  - reflexivity.
  - repeat constructor; intros H; apply test_timestampRegex_marker in H;
      vm_compute in H; discriminate.
  - constructor.
  - apply test_timestampRegex_marker. reflexivity.
Defined.

(** ** The walk as a function of the lines *)

Lemma assigned_to_cons_eq k l tagged :
  assigned_to k ((k, l) :: tagged) = l :: assigned_to k tagged.
Proof. unfold assigned_to. by rewrite filter_cons_True. Qed.

Lemma assigned_to_cons_ne k j l tagged :
  j <> k -> assigned_to k ((j, l) :: tagged) = assigned_to k tagged.
Proof. intros H. unfold assigned_to. by rewrite filter_cons_False. Qed.

Lemma extend_push old l more :
  extend (Some (default [] old ++ [l])) more = extend old (l :: more).
Proof. destruct more; simpl; [done|]. by rewrite <- app_assoc. Qed.

Lemma step_marker_index wds st line :
  test timestampRegex line = true ->
  exists t, step wds st line
            = Some (mkState (line_index wds line) t (windowContents st)).
Proof.
  intros Ht. apply test_timestampRegex_marker in Ht.
  destruct (marker_seconds line Ht)
    as (d1 & d2 & d3 & d4 & d5 & d6 & ws & -> & Hd & Hw & Hsec).
  unfold line_index. rewrite Hsec, step_marker by done. by eexists.
Qed.

Lemma walk_assigned wds lines : forall st st',
  walk wds st lines = Some st' ->
  forall k,
    windowContents st' !! k
    = extend (windowContents st !! k)
        (assigned_to k (assigned wds (currentWindowIndex st) lines)).
Proof.
  induction lines as [|l ls IH]; intros st st' Hwalk k.
  - simpl in Hwalk. by injection Hwalk as <-.
  - simpl in Hwalk. cbn [assigned].
    destruct (test timestampRegex l) eqn:Ht.
    + destruct (step_marker_index wds st l Ht) as [t Hstep].
      rewrite Hstep in Hwalk. simpl in Hwalk.
      by rewrite (IH _ _ Hwalk k).
    + rewrite step_content in Hwalk by done. simpl in Hwalk.
      rewrite (IH _ _ Hwalk k). simpl. rewrite push_line_lookup.
      destruct (decide (currentWindowIndex st = k)) as [<-|Hne].
      * by rewrite assigned_to_cons_eq, extend_push.
      * by rewrite assigned_to_cons_ne.
Qed.

Lemma extend_none more :
  extend None more = match more with [] => None | _ :: _ => Some more end.
Proof. by destruct more. Qed.

Lemma final_buckets raw wm st k :
  walk (wm * 60) (mkState 0 0 ∅) (relevant_lines raw) = Some st ->
  windowContents st !! k
  = match window_lines raw wm k with
    | [] => None
    | _ :: _ => Some (window_lines raw wm k)
    end.
Proof.
  intros Hwalk. rewrite (walk_assigned _ _ _ _ Hwalk k). simpl.
  rewrite lookup_empty. apply extend_none.
Qed.

Lemma bucket_text_nil : bucket_text [] = [].
Proof. reflexivity. Qed.

Lemma windows_characterized (raw : jsstring) (wm : Z) (w : Window) :
  timestamp_marker_in (input_lines raw) ->
  exists ws,
    splitTranscriptIntoWindows raw wm = Some ws
    /\ (w ∈ ws <->
        bucket_text (window_lines raw wm (index w)) <> []
        /\ w = mkWindow (index w)
                 (secondsToHHMMSS (index w * (wm * 60)))
                 (secondsToHHMMSS (index w * (wm * 60) + wm * 60 - 1))
                 (bucket_text (window_lines raw wm (index w)))).
Proof.
  intros Hin.
  assert (Hne : find_first (input_lines raw) 0 <> -1).
  { intros He. apply (find_first_none _ 0 ltac:(lia)) in He.
    destruct Hin as (m & Hm & Hmk). rewrite Forall_forall in He.
    apply test_timestampRegex_marker in Hmk. specialize (He m Hm).
    congruence. }
  destruct (split_with_marker raw wm Hne) as (st & Hwalk & Hs).
  eexists. split; [exact Hs|]. unfold windows_of.
  rewrite list_elem_of_omap. split.
  - intros ([k ls] & Hentry & Hw). apply entries_lookup in Hentry.
    rewrite (final_buckets raw wm st k Hwalk) in Hentry.
    unfold entry_window in Hw. cbn [fst snd] in Hw.
    destruct (0 <? length (bucket_text ls))%nat eqn:Hlen; [|done].
    injection Hw as <-. cbn [index text].
    destruct (window_lines raw wm k) eqn:Hl; [done|].
    injection Hentry as <-. split; [|done].
    intros Hnil. rewrite Hnil in Hlen. done.
  - intros [Hne' Hw].
    exists (index w, window_lines raw wm (index w)). split.
    + apply entries_lookup. rewrite (final_buckets raw wm st _ Hwalk).
      destruct (window_lines raw wm (index w)); [|done].
      by rewrite bucket_text_nil in Hne'.
    + unfold entry_window. cbn [fst snd].
      destruct (bucket_text (window_lines raw wm (index w))) eqn:Hb;
        [done|].
      cbn [length Nat.ltb Nat.leb]. f_equal. symmetry. exact Hw.
Qed.

(** X5. The result as a function of the lines: each content line belongs
    to the window of the nearest timestamp line before it, and the routine
    returns exactly one window for every index whose lines, cleaned, leave a
    non-empty text; that window carries this text and the clock range of the
    index.  The window length in seconds is taken to be a safe integer, so
    that the code's number arithmetic is exact. *)
Theorem X5_windows_are_the_nonempty_assignments
  (raw : jsstring) (wm : Z) (w : Window) :
  0 < wm -> wm * 60 <= MAX_SAFE_INTEGER ->
  timestamp_marker_in (input_lines raw) ->
  exists ws,
    splitTranscriptIntoWindows raw wm = Some ws
    /\ (w ∈ ws <->
        bucket_text (window_lines raw wm (index w)) <> []
        /\ w = mkWindow (index w)
                 (secondsToHHMMSS (index w * (wm * 60)))
                 (secondsToHHMMSS (index w * (wm * 60) + wm * 60 - 1))
                 (bucket_text (window_lines raw wm (index w)))).
Proof. intros _ _. apply windows_characterized. Qed.

Lemma X5_windows_are_the_nonempty_assignments_witness :
  exists ws,
    splitTranscriptIntoWindows (str "00:00:00
A
00:20:00
B
00:01:00
C") 20 = Some ws
    /\ mkWindow 0 (str "00:00:00") (str "00:19:59") (str "A
C") ∈ ws.
Proof.
  destruct (X5_windows_are_the_nonempty_assignments (str "00:00:00
A
00:20:00
B
00:01:00
C") 20 (mkWindow 0 (str "00:00:00") (str "00:19:59") (str "A
C"))) as (ws & Hs & Hiff).
  - lia.
  - unfold MAX_SAFE_INTEGER. lia.
  - exists (str "00:00:00"). split.
    + apply list_elem_of_In. vm_compute. left. reflexivity.
    + apply test_timestampRegex_marker. reflexivity.
  - exists ws. split; [exact Hs|]. apply Hiff. split.
    + vm_compute. discriminate.
    + vm_compute. reflexivity.
Defined.

(** ** Which buckets give a window *)

Lemma trimStart_nil s : trimStart s = [] -> all_space s.
Proof.
  intros H. destruct (trimStart_spec s) as (ws & Hws & Hs & _).
  rewrite H, app_nil_r in Hs. by subst.
Qed.

Lemma trim_nil s : trim s = [] -> all_space s.
Proof.
  unfold trim, trimEnd. intros H.
  apply (f_equal (@rev char)) in H. rewrite rev_involutive in H. simpl in H.
  apply trimStart_nil, all_space_rev in H. rewrite rev_involutive in H.
  destruct (trimStart_spec s) as (ws & Hws & Hs & _). rewrite Hs.
  by apply Forall_app.
Qed.

Lemma is_blank_all_space l : is_blank l = true <-> all_space l.
Proof.
  unfold is_blank. split.
  - destruct (trim l) eqn:Ht; [|done]. intros _. by apply trim_nil.
  - intros H. by rewrite trim_all_space.
Qed.

Lemma join_all_space parts :
  all_space (join LF parts) -> Forall all_space parts.
Proof.
  induction parts as [|p ps IH]; [constructor|]. simpl.
  destruct ps as [|q ps]; [by repeat constructor|].
  intros H. apply Forall_app in H as [Hp H].
  apply Forall_cons in H as [_ H]. constructor; [done|]. by apply IH.
Qed.

Lemma blank_or_content lines :
  Forall (fun l => is_blank l = true) lines
  \/ Exists (fun l => is_blank l = false) lines.
Proof.
  induction lines as [|l ls [IH|IH]]; [by left| |by right; right].
  destruct (is_blank l) eqn:Hl; [left; by constructor|right; by left].
Qed.

Lemma bucket_text_nonempty lines :
  bucket_text lines <> [] <-> Exists (fun l => is_blank l = false) lines.
Proof.
  split.
  - intros Hne. destruct (blank_or_content lines) as [Hall|Hex]; [|done].
    by apply bucket_text_all_blank in Hall.
  - intros Hex Hnil. apply trim_nil, join_all_space in Hnil.
    apply Exists_exists in Hex as (l & Hl & Hb).
    assert (Hin : l ∈ filter (fun l => is_blank l = false) lines)
      by (by apply list_elem_of_filter).
    rewrite <- (collapse_from_content false), <- processLines_from in Hin.
    apply list_elem_of_filter in Hin as [_ Hin].
    rewrite Forall_forall in Hnil. specialize (Hnil l Hin).
    apply is_blank_all_space in Hnil. congruence.
Qed.

(** X6. A window of index [k] is returned exactly when one of the content
    lines belonging to window [k] is not blank. *)
Theorem X6_window_iff_some_content (raw : jsstring) (wm k : Z) :
  0 < wm ->
  timestamp_marker_in (input_lines raw) ->
  exists ws,
    splitTranscriptIntoWindows raw wm = Some ws
    /\ ((exists w, w ∈ ws /\ index w = k)
        <-> Exists (fun l => is_blank l = false) (window_lines raw wm k)).
Proof.
  intros _ Hin. destruct (split_total raw wm) as [ws Hs].
  exists ws. split; [done|]. rewrite <- bucket_text_nonempty. split.
  - intros (w & Hw & <-).
    destruct (windows_characterized raw wm w Hin) as (ws' & Hs' & Hiff).
    rewrite Hs in Hs'. injection Hs' as <-. by apply Hiff.
  - intros Hne.
    set (w := mkWindow k (secondsToHHMMSS (k * (wm * 60)))
                (secondsToHHMMSS (k * (wm * 60) + wm * 60 - 1))
                (bucket_text (window_lines raw wm k))).
    destruct (windows_characterized raw wm w Hin) as (ws' & Hs' & Hiff).
    rewrite Hs in Hs'. injection Hs' as <-.
    exists w. split; [|done]. by apply Hiff.
Qed.

Lemma X6_window_iff_some_content_witness :
  exists ws,
    splitTranscriptIntoWindows (str "00:00:00

00:20:00
B") 20 = Some ws
    /\ ~ (exists w, w ∈ ws /\ index w = 0).
Proof.
  destruct (X6_window_iff_some_content (str "00:00:00

00:20:00
B") 20 0) as (ws & Hs & Hiff).
  - lia.
  - exists (str "00:00:00"). split.
    + apply list_elem_of_In. vm_compute. left. reflexivity.
    + apply test_timestampRegex_marker. reflexivity.
  - exists ws. split; [exact Hs|]. intros H. apply Hiff in H.
    vm_compute in H. apply Exists_exists in H as (l & Hl & Hb).
    apply list_elem_of_singleton in Hl. subst l. vm_compute in Hb.
    discriminate.
Defined.

(** ** Clock ranges of the windows *)

Lemma window_range raw wm ws w :
  0 < wm -> splitTranscriptIntoWindows raw wm = Some ws -> w ∈ ws ->
  0 <= index w
  /\ hhmmssToSeconds (from w) = Some (index w * (wm * 60))
  /\ hhmmssToSeconds (to w) = Some (index w * (wm * 60) + wm * 60 - 1).
Proof.
  intros Hwm Hs Hw.
  pose proof (window_index_nonneg raw wm ws w Hwm Hs Hw) as Hidx.
  destruct (split_window raw wm ws w Hs Hw)
    as (_ & _ & _ & _ & _ & _ & _ & -> & ->).
  by rewrite !hhmmssToSeconds_secondsToHHMMSS by nia.
Qed.

(** X7. The clock ranges of the returned windows do not overlap: a window of
    smaller index ends, in seconds, before any window of larger index
    begins. *)
Theorem X7_windows_do_not_overlap (raw : jsstring) (wm : Z) :
  0 < wm ->
  exists ws,
    splitTranscriptIntoWindows raw wm = Some ws
    /\ forall w1 w2, w1 ∈ ws -> w2 ∈ ws -> index w1 < index w2 ->
       exists to1 from2,
         hhmmssToSeconds (to w1) = Some to1
         /\ hhmmssToSeconds (from w2) = Some from2
         /\ to1 < from2.
Proof.
  intros Hwm. destruct (split_total raw wm) as [ws Hs].
  exists ws. split; [done|]. intros w1 w2 Hw1 Hw2 Hlt.
  destruct (window_range raw wm ws w1 Hwm Hs Hw1) as (_ & _ & Ht).
  destruct (window_range raw wm ws w2 Hwm Hs Hw2) as (_ & Hf & _).
  eexists _, _. split; [exact Ht|]. split; [exact Hf|]. nia.
Qed.

Lemma X7_windows_do_not_overlap_witness :
  exists ws,
    splitTranscriptIntoWindows (str "00:25:00
B
00:05:00
A") 20 = Some ws
    /\ forall w1 w2, w1 ∈ ws -> w2 ∈ ws -> index w1 < index w2 ->
       exists to1 from2,
         hhmmssToSeconds (to w1) = Some to1
         /\ hhmmssToSeconds (from w2) = Some from2
         /\ to1 < from2.
Proof. apply X7_windows_do_not_overlap. lia. Defined.

(** X8. The clock range of every returned window contains the time of a
    timestamp line of the input: some timestamp line at or after the first
    one reads as a second count between the window's [from] and [to].  The
    window length in seconds is taken to be a safe integer, so that the
    code's number arithmetic is exact. *)
Theorem X8_window_contains_a_timestamp (raw : jsstring) (wm : Z) :
  0 < wm -> wm * 60 <= MAX_SAFE_INTEGER ->
  exists ws,
    splitTranscriptIntoWindows raw wm = Some ws
    /\ forall w, w ∈ ws ->
       exists m t from_seconds to_seconds,
         m ∈ relevant_lines raw /\ timestamp_marker m
         /\ hhmmssToSeconds (trim m) = Some t
         /\ hhmmssToSeconds (from w) = Some from_seconds
         /\ hhmmssToSeconds (to w) = Some to_seconds
         /\ from_seconds <= t <= to_seconds.
Proof.
  intros Hwm _. destruct (split_total raw wm) as [ws Hs].
  exists ws. split; [done|]. intros w Hw.
  destruct (window_range raw wm ws w Hwm Hs Hw) as (_ & Hf & Ht).
  destruct (split_window raw wm ws w Hs Hw)
    as (st & lines & Hwalk & Hne & Hlook & _).
  destruct (relevant_keys raw (wm * 60) st Hne Hwalk (index w))
    as (m & t & Hin & Hm & Hsec & Hpos & Hk); [by eexists|].
  exists m, t. eexists _, _. split; [done|].
  split; [by apply test_timestampRegex_marker|]. split; [done|].
  split; [exact Hf|]. split; [exact Ht|]. rewrite Hk.
  pose proof (Z.div_mod t (wm * 60)).
  pose proof (Z.mod_pos_bound t (wm * 60)). nia.
Qed.

Lemma X8_window_contains_a_timestamp_witness :
  exists ws,
    splitTranscriptIntoWindows (str "00:41:07
hello") 20 = Some ws
    /\ forall w, w ∈ ws ->
       exists m t from_seconds to_seconds,
         m ∈ relevant_lines (str "00:41:07
hello") /\ timestamp_marker m
         /\ hhmmssToSeconds (trim m) = Some t
         /\ hhmmssToSeconds (from w) = Some from_seconds
         /\ hhmmssToSeconds (to w) = Some to_seconds
         /\ from_seconds <= t <= to_seconds.
Proof.
  apply X8_window_contains_a_timestamp;
    [lia | unfold MAX_SAFE_INTEGER; lia].
Defined.

(** The numbers behind a window: its index is the quotient of the second
    count of a timestamp line, at most 362439, by the window length. *)
Lemma window_numbers raw wm ws w :
  0 < wm -> splitTranscriptIntoWindows raw wm = Some ws -> w ∈ ws ->
  exists t, 0 <= t <= 362439 /\ index w = t / (wm * 60).
Proof.
  intros Hwm Hs Hw.
  destruct (split_window raw wm ws w Hs Hw)
    as (st & lines & Hwalk & Hne & Hlook & _).
  destruct (relevant_keys raw (wm * 60) st Hne Hwalk (index w))
    as (m & t & _ & Hm & Hsec & _ & Hk); [by eexists|].
  apply test_timestampRegex_marker in Hm.
  destruct (marker_seconds m Hm)
    as (d1 & d2 & d3 & d4 & d5 & d6 & sp & _ & Hd & _ & Hsec').
  rewrite Hsec in Hsec'. injection Hsec' as ->.
  eexists. split; [by apply clock_seconds_nonneg|done].
Qed.

(** X27. When the window length in seconds is a safe integer, every number
    the routine computes for a returned window is a non-negative safe
    integer, so that the code's number arithmetic is exact: the index and
    [fromSeconds] are at most 362439, the largest second count a timestamp
    line can stand for, and the sum [fromSeconds + windowDurationSeconds]
    and [toSeconds] do not exceed [MAX_SAFE_INTEGER]. *)
Theorem X27_window_numbers_are_safe_integers (raw : jsstring) (wm : Z) :
  0 < wm -> wm * 60 <= MAX_SAFE_INTEGER ->
  exists ws,
    splitTranscriptIntoWindows raw wm = Some ws
    /\ forall w, w ∈ ws ->
       let windowDurationSeconds := wm * 60 in
       let fromSeconds := index w * windowDurationSeconds in
       let toSeconds := fromSeconds + windowDurationSeconds - 1 in
       0 <= index w <= 362439
       /\ 0 <= fromSeconds <= 362439
       /\ 0 < fromSeconds + windowDurationSeconds <= MAX_SAFE_INTEGER
       /\ 0 <= toSeconds < MAX_SAFE_INTEGER
       /\ from w = secondsToHHMMSS fromSeconds
       /\ to w = secondsToHHMMSS toSeconds.
Proof.
  intros Hwm Hsafe. destruct (split_total raw wm) as [ws Hs].
  exists ws. split; [done|]. intros w Hw. cbn zeta.
  destruct (window_numbers raw wm ws w Hwm Hs Hw) as (t & Ht & Hk).
  destruct (split_window raw wm ws w Hs Hw)
    as (_ & _ & _ & _ & _ & _ & _ & Hf & Hto).
  pose proof (Z.mul_div_le t (wm * 60) ltac:(lia)) as Hle.
  pose proof (Z.div_pos t (wm * 60) ltac:(lia) ltac:(lia)) as Hpos.
  rewrite <- Hk in Hpos. rewrite Z.mul_comm, <- Hk in Hle.
  unfold MAX_SAFE_INTEGER in *.
  assert (Hcase : index w = 0 \/ wm * 60 <= index w * (wm * 60)) by nia.
  repeat split; try done; nia.
Qed.

Lemma X27_window_numbers_are_safe_integers_witness :
  exists ws,
    splitTranscriptIntoWindows (str "00:41:07
hello") 20 = Some ws
    /\ forall w, w ∈ ws ->
       0 <= index w <= 362439
       /\ 0 <= index w * (20 * 60) <= 362439
       /\ 0 < index w * (20 * 60) + 20 * 60 <= MAX_SAFE_INTEGER
       /\ 0 <= index w * (20 * 60) + 20 * 60 - 1 < MAX_SAFE_INTEGER
       /\ from w = secondsToHHMMSS (index w * (20 * 60))
       /\ to w = secondsToHHMMSS (index w * (20 * 60) + 20 * 60 - 1).
Proof.
  apply X27_window_numbers_are_safe_integers;
    [lia | unfold MAX_SAFE_INTEGER; lia].
Defined.

(** ** The text of a window *)

Lemma trimStart_suffix s : exists ws, all_space ws /\ s = ws ++ trimStart s.
Proof. destruct (trimStart_spec s) as (ws & ? & ? & _). by exists ws. Qed.

Lemma trimEnd_prefix s : exists ws, all_space ws /\ s = trimEnd s ++ ws.
Proof.
  unfold trimEnd. destruct (trimStart_suffix (rev s)) as (ws & Hws & Hs).
  exists (rev ws). split; [by apply all_space_rev|].
  rewrite <- rev_app_distr, <- Hs. by rewrite rev_involutive.
Qed.

Lemma trimStart_head s c t : trimStart s = c :: t -> is_space c = false.
Proof. destruct (trimStart_spec s) as (_ & _ & _ & H). apply H. Qed.

Lemma trimEnd_last s t c : trimEnd s = t ++ [c] -> is_space c = false.
Proof.
  unfold trimEnd. intros H. apply (f_equal (@rev char)) in H.
  rewrite rev_involutive, rev_app_distr in H. simpl in H.
  by apply trimStart_head in H.
Qed.

Lemma trimStart_fixed c s : is_space c = false -> trimStart (c :: s) = c :: s.
Proof. apply trimStart_nonspace. Qed.

(** A trimmed text is empty, or begins and ends with a character that is
    not white space. *)
Lemma trim_ends s :
  trim s = []
  \/ exists c t d u, trim s = c :: t /\ trim s = u ++ [d]
                     /\ is_space c = false /\ is_space d = false.
Proof.
  destruct (trim s) as [|c t] eqn:Ht; [by left|right].
  destruct (exists_last (l := c :: t) ltac:(done)) as (u & d & Hu).
  exists c, t, d, u. split; [done|]. split; [done|].
  unfold trim in Ht. split.
  - destruct (trimEnd_prefix (trimStart s)) as (ws & _ & Hs).
    rewrite Ht in Hs. simpl in Hs. by apply trimStart_head in Hs.
  - rewrite Hu in Ht. by apply trimEnd_last in Ht.
Qed.

Lemma trim_idempotent s : trim (trim s) = trim s.
Proof.
  destruct (trim_ends s) as [->|(c & t & d & u & Hc & Hd & Hsc & Hsd)];
    [done|].
  unfold trim at 1. rewrite Hc at 1. rewrite trimStart_fixed by done.
  rewrite <- Hc, Hd. unfold trimEnd. rewrite rev_app_distr. simpl.
  rewrite Hsd. simpl. by rewrite rev_involutive.
Qed.

(** X9. The text of every returned window is already trimmed: it is not
    empty, trimming it again changes nothing, and its first and last
    characters are not white space. *)
Theorem X9_text_is_trimmed (raw : jsstring) (wm : Z) :
  0 < wm ->
  exists ws,
    splitTranscriptIntoWindows raw wm = Some ws
    /\ forall w, w ∈ ws ->
       trim (text w) = text w
       /\ exists c t d u,
            text w = c :: t /\ text w = u ++ [d]
            /\ is_space c = false /\ is_space d = false.
Proof.
  intros _. destruct (split_total raw wm) as [ws Hs].
  exists ws. split; [done|]. intros w Hw.
  destruct (split_window raw wm ws w Hs Hw)
    as (_ & lines & _ & _ & _ & Htext & Hne & _).
  rewrite Htext in *. unfold bucket_text in *.
  split; [apply trim_idempotent|].
  by destruct (trim_ends (join LF (processLines lines))) as [?|?].
Qed.

Lemma X9_text_is_trimmed_witness :
  exists ws,
    splitTranscriptIntoWindows (str "00:00:00

   Hello there

") 20 = Some ws
    /\ forall w, w ∈ ws -> trim (text w) = text w.
Proof.
  destruct (X9_text_is_trimmed (str "00:00:00

   Hello there

") 20) as (ws & Hs & Hall); [lia|].
  exists ws. split; [exact Hs|]. intros w Hw. exact (proj1 (Hall w Hw)).
Defined.

(** *** Characters and line feeds of a text *)

Lemma elem_trim c s : c ∈ trim s -> c ∈ s.
Proof.
  intros H. unfold trim in H.
  destruct (trimStart_suffix s) as (ws1 & _ & Hs1).
  destruct (trimEnd_prefix (trimStart s)) as (ws2 & _ & Hs2).
  rewrite Hs1, Hs2. rewrite !elem_of_app. auto.
Qed.

Lemma elem_join c parts :
  c ∈ join LF parts -> c = LF \/ exists p, p ∈ parts /\ c ∈ p.
Proof.
  induction parts as [|p ps IH]; simpl; [by intros ?%elem_of_nil|].
  destruct ps as [|q ps].
  - intros H. right. exists p. split; [by left|done].
  - rewrite elem_of_app, elem_of_cons. intros [H|[H|H]].
    + right. exists p. split; [by left|done].
    + by left.
    + destruct (IH H) as [?|(p' & Hp' & Hc)]; [by left|].
      right. exists p'. split; [by right|done].
Qed.

Lemma elem_collapse_from flag lines l :
  l ∈ collapse_from flag lines -> l = [] \/ (l ∈ lines /\ is_blank l = false).
Proof.
  revert flag. induction lines as [|x xs IH]; intros flag; cbn [collapse_from];
    [by intros ?%elem_of_nil|].
  destruct (is_blank x) eqn:Hx.
  - destruct flag.
    + intros H. destruct (IH _ H) as [?|[? ?]]; [by left|].
      right. split; [by right|done].
    + rewrite elem_of_cons. intros [?|H]; [by left|].
      destruct (IH _ H) as [?|[? ?]]; [by left|]. right. split; [by right|done].
  - rewrite elem_of_cons. intros [->|H]; [right; split; [by left|done]|].
    destruct (IH _ H) as [?|[? ?]]; [by left|]. right. split; [by right|done].
Qed.

Lemma elem_assigned wds k l lines : forall cur,
  l ∈ assigned_to k (assigned wds cur lines) ->
  l ∈ lines /\ test timestampRegex l = false.
Proof.
  unfold assigned_to.
  induction lines as [|x xs IH]; intros cur; cbn [assigned];
    [by intros ?%elem_of_nil|].
  destruct (test timestampRegex x) eqn:Hx.
  - intros H. destruct (IH _ H). split; [by right|done].
  - destruct (decide (cur = k)) as [->|Hne].
    + rewrite filter_cons_True by done. simpl. rewrite elem_of_cons.
      intros [->|H]; [split; [by left|done]|].
      destruct (IH _ H). split; [by right|done].
    + rewrite filter_cons_False by done. intros H.
      destruct (IH _ H). split; [by right|done].
Qed.

Lemma elem_split_on sep s l c :
  l ∈ split_on sep s -> c ∈ l -> c ∈ s /\ c <> sep.
Proof.
  revert l. induction s as [|x s IH]; intros l; simpl.
  - intros ->%list_elem_of_singleton ?%elem_of_nil. done.
  - destruct (Z.eqb_spec x sep) as [->|Hne].
    + rewrite elem_of_cons. intros [->|Hl] Hc; [by apply elem_of_nil in Hc|].
      destruct (IH l Hl Hc). split; [by right|done].
    + destruct (split_on sep s) as [|y ys] eqn:Hsp.
      * intros ->%list_elem_of_singleton ->%list_elem_of_singleton.
        split; [by left|done].
      * rewrite elem_of_cons. intros [->|Hl] Hc.
        -- apply elem_of_cons in Hc as [->|Hc]; [split; [by left|done]|].
           destruct (IH y ltac:(by left) Hc). split; [by right|done].
        -- destruct (IH l ltac:(by right) Hc). split; [by right|done].
Qed.

Lemma input_lines_chars raw l c :
  l ∈ input_lines raw -> c ∈ l -> c <> LF /\ c <> CR.
Proof.
  unfold input_lines. intros Hl Hc.
  destruct (elem_split_on _ _ _ _ Hl Hc) as [Hin Hlf]. split; [done|].
  apply elem_trim in Hin. unfold replace_cr in Hin.
  apply list_elem_of_fmap in Hin as (d & -> & _).
  by destruct (Z.eqb_spec d CR).
Qed.

Lemma relevant_lines_sub raw l : l ∈ relevant_lines raw -> l ∈ input_lines raw.
Proof.
  unfold relevant_lines. intros H.
  rewrite <- (take_drop (Z.to_nat (find_first (input_lines raw) 0))
               (input_lines raw)).
  apply elem_of_app. by right.
Qed.

Lemma lf_runs_ok_no_lf n s : no_lf s -> lf_runs_ok n s = true.
Proof.
  intros H. revert n. induction H as [|c s Hc _ IH]; intros n; simpl; [done|].
  destruct (Z.eqb_spec c LF); [done|]. apply IH.
Qed.

Lemma lf_runs_ok_line n p s :
  no_lf p -> p <> [] -> lf_runs_ok n (p ++ s) = lf_runs_ok 0 (p ++ s).
Proof.
  intros [|c p' Hc _] Hne; [done|]. simpl. by destruct (Z.eqb_spec c LF).
Qed.

Lemma lf_runs_ok_app_line p s :
  no_lf p -> lf_runs_ok 0 (p ++ s) = lf_runs_ok 0 s.
Proof.
  induction 1 as [|c p Hc _ IH]; [done|]. simpl.
  by destruct (Z.eqb_spec c LF).
Qed.

Lemma lf_runs_ok_weaken n m s :
  (m <= n)%nat -> lf_runs_ok n s = true -> lf_runs_ok m s = true.
Proof.
  revert n m. induction s as [|c s IH]; intros n m Hle; simpl; [done|].
  destruct (Z.eqb_spec c LF); [|done].
  rewrite !andb_true_iff, !Nat.ltb_lt. intros [Hn Hs]. split; [lia|].
  apply (IH (S n)); [lia|done].
Qed.

Lemma lf_runs_ok_suffix a s : forall n,
  lf_runs_ok n (a ++ s) = true -> lf_runs_ok 0 s = true.
Proof.
  induction a as [|c a IH]; intros n; simpl.
  - apply lf_runs_ok_weaken. lia.
  - destruct (Z.eqb_spec c LF).
    + rewrite andb_true_iff. intros [_ H]. by apply IH in H.
    + apply IH.
Qed.

Lemma lf_runs_ok_prefix s b : forall n,
  lf_runs_ok n (s ++ b) = true -> lf_runs_ok n s = true.
Proof.
  induction s as [|c s IH]; intros n; simpl; [done|].
  destruct (Z.eqb_spec c LF).
  - rewrite !andb_true_iff. intros [Hn H]. split; [done|]. by apply IH in H.
  - apply IH.
Qed.

Lemma lf_runs_ok_triple a b : lf_runs_ok 0 (a ++ LF :: LF :: LF :: b) = false.
Proof.
  destruct (lf_runs_ok 0 (a ++ LF :: LF :: LF :: b)) eqn:H; [|done].
  assert (Hs : forall n, lf_runs_ok n (a ++ LF :: LF :: LF :: b) = true ->
            exists m, lf_runs_ok m (LF :: LF :: LF :: b) = true).
  { clear H. induction a as [|c a IH]; intros n; simpl app; [by exists n|].
    cbn [lf_runs_ok]. destruct (c =? LF).
    - rewrite andb_true_iff. intros [_ H]. by apply IH in H.
    - apply IH. }
  destruct (Hs 0%nat H) as [m Hm]. exfalso. revert Hm. simpl.
  destruct m as [|[|m]]; simpl; discriminate.
Qed.

Lemma join_lf_runs ps : forall n,
  Forall no_lf ps -> no_adjacent_empty ps ->
  (n <= 2)%nat -> (head ps = Some [] -> n <= 1)%nat ->
  lf_runs_ok n (join LF ps) = true.
Proof.
  induction ps as [|p ps IH]; intros n Hlf Hadj Hn Hhead; [done|].
  apply Forall_cons in Hlf as [Hp Hlf]. cbn [join].
  destruct ps as [|q ps]; [by apply lf_runs_ok_no_lf|].
  destruct Hadj as [Hpq Hadj].
  destruct p as [|c p].
  - simpl app. cbn [lf_runs_ok]. change (LF =? LF) with true.
    specialize (Hhead eq_refl).
    rewrite (proj2 (Nat.ltb_lt n 2)) by lia. simpl.
    apply IH; [done|done|lia|]. simpl. intros [= ->]. by destruct Hpq.
  - rewrite lf_runs_ok_line, lf_runs_ok_app_line by done.
    cbn [lf_runs_ok]. change (LF =? LF) with true. simpl.
    apply IH; [done|done|lia|lia].
Qed.

Lemma collapse_from_no_adjacent lines : forall flag,
  no_adjacent_empty (collapse_from flag lines)
  /\ (flag = true -> head (collapse_from flag lines) <> Some []).
Proof.
  induction lines as [|l ls IH]; intros flag; cbn [collapse_from];
    [by split|].
  destruct (is_blank l) eqn:Hl.
  - destruct (IH true) as [IH1 IH2]. destruct flag; [by split|].
    split; [|done]. cbn [no_adjacent_empty].
    destruct (collapse_from true ls) as [|x xs] eqn:Hc; [done|].
    split; [|done]. intros [_ ->]. by apply IH2.
  - assert (l <> []) by (intros ->; by rewrite is_blank_nil in Hl).
    destruct (IH false) as [IH1 _]. split; [|by intros _ [= ->]].
    cbn [no_adjacent_empty].
    destruct (collapse_from false ls) as [|x xs] eqn:Hc; [done|].
    split; [|done]. by intros [-> _].
Qed.

(** X10. The text of a returned window holds no carriage return and never
    three line feeds in a row: its lines are separated by single line feeds,
    with at most one empty line between two lines of content. *)
Theorem X10_text_line_structure (raw : jsstring) (wm : Z) :
  0 < wm ->
  exists ws,
    splitTranscriptIntoWindows raw wm = Some ws
    /\ forall w, w ∈ ws ->
       (CR ∉ text w)
       /\ forall a b, text w <> a ++ LF :: LF :: LF :: b.
Proof.
  intros _. destruct (split_total raw wm) as [ws Hs].
  exists ws. split; [done|]. intros w Hw.
  destruct (split_window raw wm ws w Hs Hw)
    as (st & lines & Hwalk & _ & Hlook & Htext & _).
  rewrite (final_buckets raw wm st _ Hwalk) in Hlook.
  assert (Hlines : forall l, l ∈ lines -> l ∈ input_lines raw).
  { intros l Hl. destruct (window_lines raw wm (index w)) eqn:Hwl; [done|].
    injection Hlook as <-. rewrite <- Hwl in Hl.
    apply elem_assigned in Hl as [Hl _]. by apply relevant_lines_sub. }
  assert (Hproc : forall l c, l ∈ processLines lines -> c ∈ l ->
            c <> LF /\ c <> CR).
  { intros l c Hl Hc. rewrite processLines_from in Hl.
    apply elem_collapse_from in Hl as [->|[Hl _]];
      [by apply elem_of_nil in Hc|].
    eapply input_lines_chars; [by apply Hlines|done]. }
  rewrite Htext. unfold bucket_text. split.
  - intros Hcr. apply elem_trim, elem_join in Hcr as [?|(p & Hp & Hc)];
      [done|].
    by destruct (Hproc p CR Hp Hc).
  - intros a b Heq.
    assert (Hok : lf_runs_ok 0 (join LF (processLines lines)) = true).
    { apply join_lf_runs; [| |lia|lia].
      - apply Forall_forall. intros l Hl. apply Forall_forall.
        intros c Hc. by destruct (Hproc l c Hl Hc).
      - rewrite processLines_from. apply collapse_from_no_adjacent. }
    destruct (trimStart_suffix (join LF (processLines lines)))
      as (ws1 & _ & Hs1).
    destruct (trimEnd_prefix (trimStart (join LF (processLines lines))))
      as (ws2 & _ & Hs2).
    fold (trim (join LF (processLines lines))) in Hs2.
    rewrite Hs1, Hs2 in Hok.
    apply lf_runs_ok_suffix, lf_runs_ok_prefix in Hok.
    by rewrite Heq, lf_runs_ok_triple in Hok.
Qed.

Lemma X10_text_line_structure_witness :
  exists ws,
    splitTranscriptIntoWindows (to_crlf (str "00:00:00
A



B")) 20 = Some ws
    /\ forall w, w ∈ ws -> (CR ∉ text w).
Proof.
  destruct (X10_text_line_structure (to_crlf (str "00:00:00
A



B")) 20) as (ws & Hs & Hall); [lia|].
  exists ws. split; [exact Hs|]. intros w Hw. exact (proj1 (Hall w Hw)).
Defined.

(** ** Edge cases of [hhmmssToSeconds] *)

Lemma split_on_length s :
  length (split_on COLON s) = S (colons s).
Proof.
  unfold colons. induction s as [|c s IH]; [done|]. cbn [split_on].
  unfold jsstring in *. rewrite filter_cons. destruct (Z.eqb_spec c COLON) as [->|Hne].
  - rewrite decide_True by done. cbn [length]. by rewrite IH.
  - rewrite decide_False by done.
    destruct (split_on COLON s); cbn [length] in *; [done|]. exact IH.
Qed.

(** X11. [hhmmssToSeconds] is [NaN] on a text with fewer than two colons,
    and ignores whatever follows a third colon. *)
Theorem X11_hhmmssToSeconds_fields (h m s tail : jsstring) :
  no_colon h -> no_colon m -> no_colon s ->
  (forall t, (colons t < 2)%nat -> hhmmssToSeconds t = None)
  /\ hhmmssToSeconds (h ++ COLON :: m ++ COLON :: s ++ COLON :: tail)
     = hhmmssToSeconds (h ++ COLON :: m ++ COLON :: s).
Proof.
  intros Hh Hm Hs. split.
  - intros t Ht. pose proof (split_on_length t) as Hlen.
    unfold hhmmssToSeconds.
    destruct (split_on COLON t) as [|p0 [|p1 [|p2 ps]]]; cbn [map];
      try reflexivity.
    exfalso. cbn [length] in Hlen. lia.
  - rewrite (hhmmssToSeconds_fields h m s) by done. unfold hhmmssToSeconds.
    by rewrite !split_on_field.
Qed.

Lemma X11_hhmmssToSeconds_fields_witness :
  hhmmssToSeconds (str "12:30") = None
  /\ hhmmssToSeconds (str "01:02:03:99") = hhmmssToSeconds (str "01:02:03").
Proof.
  destruct (X11_hhmmssToSeconds_fields (str "01") (str "02") (str "03")
              (str "99")) as [Hfew Hextra].
  - repeat constructor.
  - repeat constructor.
  - repeat constructor.
  - split; [apply Hfew; vm_compute; lia|exact Hextra].
Defined.

(** ** Audio types between the page and the speech-score route *)

Lemma str_eq_true a b : str_eq a b = true <-> a = b.
Proof. unfold str_eq. apply bool_decide_eq_true. Qed.

Lemma includes_elem l x : includes l x = true <-> x ∈ l.
Proof.
  unfold includes. rewrite existsb_exists. split.
  - intros (y & Hy & Heq). apply str_eq_true in Heq. subst.
    by apply list_elem_of_In.
  - intros H. exists x. split; [by apply list_elem_of_In|].
    by apply str_eq_true.
Qed.

Lemma allowed_cases (P : jsstring -> Prop) :
  P (str "audio/webm") -> P (str "audio/mpeg") -> P (str "audio/wav") ->
  P (str "audio/mp4") -> P (str "audio/aac") -> P (str "audio/ogg") ->
  P (str "audio/m4a") ->
  forall x, x ∈ allowed -> P x.
Proof.
  intros H1 H2 H3 H4 H5 H6 H7 x Hx. unfold allowed in Hx.
  repeat (apply elem_of_cons in Hx as [->|Hx]; [assumption|]).
  by apply elem_of_nil in Hx.
Qed.

Ltac in_list :=
  repeat first [apply list_elem_of_here | apply list_elem_of_further].

Ltac mime_case m :=
  match goal with
  | |- context [if str_eq m ?lit then _ else _] =>
      let E := fresh "E" in
      destruct (str_eq m lit) eqn:E;
      [apply str_eq_true in E; try subst m|]
  end.

Lemma mapMimeToFormat_allowed m :
  is_Some (mapMimeToFormat m) <-> m ∈ allowed.
Proof.
  split.
  - unfold mapMimeToFormat, allowed. intros [f Hf]. revert Hf.
    do 7 (mime_case m; [intros _; in_list|]). discriminate.
  - revert m. apply allowed_cases; by eexists.
Qed.

Lemma canonicalizeMime_allowed lower m : canonicalizeMime lower m ∈ allowed.
Proof.
  unfold canonicalizeMime.
  set (base := lower (trim (hd [] (split_on SEMICOLON m)))).
  do 3 (mime_case base; [unfold allowed; in_list|]).
  destruct (includes allowed base) eqn:Hin; [by apply includes_elem|].
  unfold allowed. in_list.
Qed.

(** X12. [canonicalizeMime] always returns one of the seven audio types of
    its [allowed] list, and the speech-score route's [mapMimeToFormat]
    accepts every one of them: an audio type sent through
    [canonicalizeMime] is never refused as unsupported. *)
Theorem X12_canonical_mime_is_accepted
  (lower : jsstring -> jsstring) (m : jsstring) :
  canonicalizeMime lower m ∈ allowed
  /\ is_Some (mapMimeToFormat (canonicalizeMime lower m)).
Proof.
  split; [apply canonicalizeMime_allowed|].
  apply mapMimeToFormat_allowed, canonicalizeMime_allowed.
Qed.

(** X13. [mapMimeToFormat] accepts exactly the seven audio types of the
    page's [allowed] list, answers [null] on any other text, and gives
    different formats to different types. *)
Theorem X13_accepted_mimes (m1 m2 : jsstring) :
  (is_Some (mapMimeToFormat m1) <-> m1 ∈ allowed)
  /\ (m1 ∉ allowed -> mapMimeToFormat m1 = None)
  /\ (is_Some (mapMimeToFormat m1) ->
      mapMimeToFormat m1 = mapMimeToFormat m2 -> m1 = m2).
Proof.
  split; [apply mapMimeToFormat_allowed|]. split.
  - intros Hn. destruct (mapMimeToFormat m1) eqn:Hm; [|done].
    exfalso. apply Hn, mapMimeToFormat_allowed. by eexists.
  - intros H1 Heq. assert (H2 : is_Some (mapMimeToFormat m2))
      by (by rewrite <- Heq).
    apply mapMimeToFormat_allowed in H1, H2. revert m2 H2 Heq.
    revert m1 H1.
    apply (allowed_cases (fun m1 => forall m2, m2 ∈ allowed ->
             mapMimeToFormat m1 = mapMimeToFormat m2 -> m1 = m2));
      apply (allowed_cases (fun m2 => mapMimeToFormat _
                              = mapMimeToFormat m2 -> _ = m2));
      (reflexivity || (vm_compute; discriminate)).
Qed.

Lemma X13_accepted_mimes_witness :
  mapMimeToFormat (str "audio/flac") = None.
Proof.
  apply (proj1 (proj2 (X13_accepted_mimes (str "audio/flac") []))).
  intros H. vm_compute in H.
  repeat (apply elem_of_cons in H as [H|H]; [discriminate|]).
  by apply elem_of_nil in H.
Defined.

Lemma hd_split_on sep p s :
  Forall (fun c => c <> sep) p ->
  hd [] (split_on sep (p ++ sep :: s)) = p /\ hd [] (split_on sep p) = p.
Proof.
  induction 1 as [|c p Hc _ [IH1 IH2]]; simpl.
  - by rewrite Z.eqb_refl.
  - destruct (Z.eqb_spec c sep); [done|].
    destruct (split_on sep (p ++ sep :: s)), (split_on sep p);
      simpl in *; by subst.
Qed.

(** X14. [canonicalizeMime] ignores the parameters of a media type:
    whatever follows the first semicolon does not change the result, so a
    recorder's "audio/webm;codecs=opus" is sent as "audio/webm"; applied to
    its own result it changes nothing, provided lower-casing leaves the seven
    allowed types as they are. *)
Theorem X14_mime_parameters_ignored
  (lower : jsstring -> jsstring) (m params : jsstring) :
  SEMICOLON ∉ m ->
  canonicalizeMime lower (m ++ SEMICOLON :: params) = canonicalizeMime lower m
  /\ ((forall x, x ∈ allowed -> lower x = x) ->
      canonicalizeMime lower (canonicalizeMime lower m)
      = canonicalizeMime lower m).
Proof.
  intros Hm.
  assert (Hf : Forall (fun c => c <> SEMICOLON) m).
  { apply Forall_forall. intros c Hc ->. done. }
  destruct (hd_split_on SEMICOLON m params Hf) as [H1 H2]. split.
  - unfold canonicalizeMime. by rewrite H1, H2.
  - intros Hlow. generalize (canonicalizeMime_allowed lower m).
    generalize (canonicalizeMime lower m). intros r Hr.
    pose proof (Hlow r Hr) as Hfix. revert r Hr Hfix.
    apply (allowed_cases
             (fun r => lower r = r -> canonicalizeMime lower r = r));
      intros Hfix; unfold canonicalizeMime;
      match goal with
      | |- context [lower ?x] =>
          match goal with
          | |- _ = ?r => replace x with r by (vm_compute; reflexivity)
          end
      end;
      rewrite Hfix; vm_compute; reflexivity.
Qed.

Lemma X14_mime_parameters_ignored_witness :
  canonicalizeMime ascii_lower (str "audio/webm;codecs=opus")
  = canonicalizeMime ascii_lower (str "audio/webm").
Proof.
  apply (proj1 (X14_mime_parameters_ignored ascii_lower (str "audio/webm")
                  (str "codecs=opus")
                  ltac:(intros H; apply list_elem_of_In in H; vm_compute in H;
                        repeat destruct H as [H|H]; discriminate || done))).
Defined.

(** ** Truncation of logged texts *)

Lemma slice0_take s max : 0 <= max -> slice0 s max = take (Z.to_nat max) s.
Proof. intros H. unfold slice0. by destruct (Z.ltb_spec max 0); [lia|]. Qed.



(** ** Accent codes sent to the vendor *)

Ltac not_in_list H :=
  repeat (apply elem_of_cons in H as [H|H]; [discriminate || done|]);
  by apply elem_of_nil in H.

Lemma vendor_not_alias r : r ∈ vendor_accents -> r ∉ accent_aliases.
Proof.
  unfold vendor_accents. intros Hr Hin.
  repeat (apply elem_of_cons in Hr as [->|Hr];
          [vm_compute in Hin; not_in_list Hin|]).
  by apply elem_of_nil in Hr.
Qed.

Lemma normalizeAccent_cases lower a :
  normalizeAccent lower a ∈ vendor_accents
  \/ (exists x, a = Some x /\ x <> [] /\ normalizeAccent lower a = lower x
                /\ lower x ∉ accent_aliases).
Proof.
  destruct a as [[|c a]|];
    [left; unfold vendor_accents; in_list|
    |left; unfold vendor_accents; in_list].
  unfold normalizeAccent. set (s := lower (c :: a)).
  destruct (str_eq s (str "en-us")) eqn:E1;
    [left; unfold vendor_accents; in_list|].
  destruct (str_eq s (str "en-gb")) eqn:E2;
    [left; unfold vendor_accents; in_list|].
  destruct (str_eq s (str "gb-en")) eqn:E3;
    [left; unfold vendor_accents; in_list|].
  destruct (str_eq s (str "uk")) eqn:E4;
    [left; unfold vendor_accents; in_list|].
  destruct (str_eq s (str "en-uk")) eqn:E5;
    [left; unfold vendor_accents; in_list|].
  destruct (str_eq s (str "en-au")) eqn:E6;
    [left; unfold vendor_accents; in_list|].
  destruct (str_eq s (str "au-en")) eqn:E7;
    [left; unfold vendor_accents; in_list|].
  cbn [orb]. right. exists (c :: a). split; [done|]. split; [done|].
  split; [done|]. fold s.
  apply bool_decide_eq_false in E1, E2, E3, E4, E5, E6, E7.
  unfold accent_aliases. intros Hin. not_in_list Hin.
Qed.

Lemma normalizeAccent_plain lower r :
  r <> [] -> lower r ∉ accent_aliases ->
  normalizeAccent lower (Some r) = lower r.
Proof.
  intros Hr Hn. destruct r as [|c r]; [done|].
  unfold normalizeAccent. set (s := lower (c :: r)) in *.
  repeat match goal with
  | |- context [str_eq s ?lit] =>
      let E := fresh "E" in
      destruct (str_eq s lit) eqn:E;
      [ apply str_eq_true in E; exfalso; apply Hn; rewrite E;
        unfold accent_aliases; in_list | ]
  end.
  reflexivity.
Qed.

(** X16. [normalizeAccent] answers "us" for an absent or empty accent and
    never returns one of the aliases en-us, en-gb, gb-en, uk, en-uk, en-au,
    au-en: these are replaced by us, gb and au.  If lower-casing is
    idempotent, keeps a non-empty text non-empty and leaves "us", "gb",
    "au" unchanged, normalising twice is normalising once. *)
Theorem X16_normalizeAccent
  (lower : jsstring -> jsstring) (a : option jsstring) :
  normalizeAccent lower None = str "us"
  /\ normalizeAccent lower (Some []) = str "us"
  /\ (normalizeAccent lower a ∉ accent_aliases)
  /\ ((forall x, lower (lower x) = lower x) ->
      (forall x, x ∈ vendor_accents -> lower x = x) ->
      (forall x, x <> [] -> lower x <> []) ->
      normalizeAccent lower (Some (normalizeAccent lower a))
      = normalizeAccent lower a).
Proof.
  split; [done|]. split; [done|].
  pose proof (normalizeAccent_cases lower a) as Hcases. split.
  - destruct Hcases as [H|(x & _ & _ & -> & H)];
      [by apply vendor_not_alias|done].
  - intros Hidem Hfix Hne.
    destruct Hcases as [H|(x & _ & Hx & Heq & H)].
    + rewrite normalizeAccent_plain; [by apply Hfix| |].
      * intros Hnil. rewrite Hnil in H. unfold vendor_accents in H.
        not_in_list H.
      * rewrite Hfix by done. by apply vendor_not_alias.
    + rewrite Heq.
      rewrite normalizeAccent_plain; [apply Hidem|by apply Hne|].
      by rewrite Hidem.
Qed.

Lemma X16_normalizeAccent_witness :
  normalizeAccent ascii_lower (Some (normalizeAccent ascii_lower
                                       (Some (str "EN-GB"))))
  = normalizeAccent ascii_lower (Some (str "EN-GB")).
Proof.
  apply (proj2 (proj2 (proj2 (X16_normalizeAccent ascii_lower
                                (Some (str "EN-GB")))))).
  - intros x. unfold ascii_lower. rewrite map_map. apply map_ext.
    intros c. destruct ((65 <=? c) && (c <=? 90)) eqn:E; [|by rewrite E].
    replace ((65 <=? c + 32) && (c + 32 <=? 90)) with false by lia. done.
  - intros x Hx. unfold vendor_accents in Hx.
    repeat (apply elem_of_cons in Hx as [->|Hx]; [reflexivity|]).
    by apply elem_of_nil in Hx.
  - intros [|c x] Hx; [done|discriminate].
Defined.

(** * The page component *)

(** ** Quiz navigation *)

(** X17. [navigateQuiz] never leaves the queue: from an index inside the
    queue it moves by one step or stays, keeps the queue, the mode and the
    open flag, does nothing at the first item going back and at the last
    item going forward, and going forward then back returns to the same
    state. *)
Theorem X17_navigateQuiz_stays_in_range (d : Direction) (q : PracticeQuiz) :
  quiz_in_range q ->
  quiz_in_range (navigateQuiz d q)
  /\ quiz_queue (navigateQuiz d q) = quiz_queue q
  /\ quiz_mode (navigateQuiz d q) = quiz_mode q
  /\ quiz_open (navigateQuiz d q) = quiz_open q
  /\ (quiz_index q = 0 -> navigateQuiz Prev q = q)
  /\ (quiz_index q = Z.of_nat (length (quiz_queue q)) - 1 ->
      navigateQuiz Next q = q)
  /\ (quiz_index q + 1 < Z.of_nat (length (quiz_queue q)) ->
      quiz_index (navigateQuiz Next q) = quiz_index q + 1
      /\ navigateQuiz Prev (navigateQuiz Next q) = q).
Proof.
  unfold quiz_in_range. intros Hr. destruct q as [o m queue i cur].
  simpl in *. unfold navigateQuiz. simpl.
  repeat split.
  - destruct d; simpl;
      destruct (Z.ltb_spec (i - 1) 0), (Z.ltb_spec (i + 1) 0),
        (Z.geb_spec (i - 1) (Z.of_nat (length queue))),
        (Z.geb_spec (i + 1) (Z.of_nat (length queue))); simpl; lia.
  - destruct d; simpl;
      destruct (Z.ltb_spec (i - 1) 0), (Z.ltb_spec (i + 1) 0),
        (Z.geb_spec (i - 1) (Z.of_nat (length queue))),
        (Z.geb_spec (i + 1) (Z.of_nat (length queue))); simpl; lia.
  - by destruct d, (_ || _).
  - by destruct d, (_ || _).
  - by destruct d, (_ || _).
  - intros ->. reflexivity.
  - intros ->. destruct (Z.ltb_spec (Z.of_nat (length queue) - 1 + 1) 0),
      (Z.geb_spec (Z.of_nat (length queue) - 1 + 1)
         (Z.of_nat (length queue))); simpl; try done; lia.
  - destruct (Z.ltb_spec (i + 1) 0),
      (Z.geb_spec (i + 1) (Z.of_nat (length queue))); simpl; lia.
  - destruct (Z.ltb_spec (i + 1) 0),
      (Z.geb_spec (i + 1) (Z.of_nat (length queue))); simpl; try lia.
    replace (i + 1 - 1) with i by lia.
    destruct (Z.ltb_spec i 0), (Z.geb_spec i (Z.of_nat (length queue)));
      simpl; try lia. reflexivity.
Qed.

Lemma X17_navigateQuiz_stays_in_range_witness :
  quiz_index (navigateQuiz Next
    (mkQuiz true (Some ModeVocab) [str "vocab::a"; str "vocab::b"] 1 None))
  = 1.
Proof.
  pose proof (X17_navigateQuiz_stays_in_range Next
    (mkQuiz true (Some ModeVocab) [str "vocab::a"; str "vocab::b"] 1 None)
    ltac:(unfold quiz_in_range; simpl; lia)) as (_ & _ & _ & _ & _ & H & _).
  rewrite H; reflexivity.
Defined.

(** ** Opening the quiz *)

Lemma push_keys clicked keys : forall queue i,
  let r := fold_left (push_key clicked) keys (queue, i) in
  r.1 = queue ++ keys
  /\ (clicked ∈ keys ->
      Z.of_nat (length queue) <= r.2 < Z.of_nat (length (queue ++ keys))
      /\ (queue ++ keys) !! Z.to_nat r.2 = Some clicked)
  /\ (clicked ∉ keys -> r.2 = i).
Proof.
  induction keys as [|k keys IH]; intros queue i; cbn zeta.
  - cbn [fold_left fst snd]. rewrite app_nil_r. split; [done|].
    split; [|done]. by intros ?%elem_of_nil.
  - cbn [fold_left].
    set (i1 := if str_eq k clicked
               then Z.of_nat (length (queue ++ [k])) - 1 else i).
    change (push_key clicked (queue, i) k) with (queue ++ [k], i1).
    specialize (IH (queue ++ [k]) i1). cbn zeta in IH.
    set (r := fold_left (push_key clicked) keys (queue ++ [k], i1)) in *.
    destruct IH as (Hq & Hin & Hout).
    rewrite <- !app_assoc in *. cbn [app] in *.
    assert (Hlen : length (queue ++ [k]) = S (length queue))
      by (rewrite length_app; simpl; lia).
    split; [done|]. split.
    + intros Hc. destruct (decide (clicked ∈ keys)) as [Hk|Hk].
      * destruct (Hin Hk) as [Hr Hl]. split; [|done]. lia.
      * rewrite (Hout Hk). apply elem_of_cons in Hc as [->|Hc]; [|done].
        subst i1. rewrite (proj2 (str_eq_true k k) eq_refl), Hlen.
        rewrite length_app. cbn [length]. split; [lia|].
        replace (Z.to_nat (Z.of_nat (S (length queue)) - 1))
          with (length queue + 0)%nat by lia.
        by rewrite lookup_app_r, Nat.add_0_r, Nat.sub_diag by lia.
    + intros Hc. rewrite Hout by (intros ?; apply Hc; by right).
      subst i1. destruct (str_eq k clicked) eqn:E; [|done].
      apply str_eq_true in E. subst. exfalso. apply Hc. by left.
Qed.

Lemma fold_alt_keys clicked ss : forall st,
  fold_left
    (fun st sentence =>
       fold_left
         (fun st alt => push_key clicked st (getAltKey sentence alt))
         (alternatives sentence) st) ss st
  = fold_left (push_key clicked)
      (flat_map (fun s => map (getAltKey s) (alternatives s)) ss) st.
Proof.
  induction ss as [|s ss IH]; intros st; simpl; [done|].
  rewrite fold_left_app, IH. f_equal.
  generalize (alternatives s) st. clear. intros alts.
  induction alts as [|a alts IH]; intros st; simpl; [done|]. apply IH.
Qed.

Lemma startQuiz_fold lower results mode clicked :
  startQuiz lower results mode clicked
  = let r := fold_left (push_key clicked) (quiz_keys lower results mode)
               ([], 0) in
    mkQuiz true (Some mode) r.1 r.2 None.
Proof.
  unfold startQuiz, quiz_keys. destruct mode.
  - by rewrite fold_alt_keys.
  - simpl. f_equal; f_equal;
      generalize (vocabulary results) (@nil jsstring, 0); clear;
      intros vs; induction vs as [|v vs IH]; intros st; simpl; try done;
      apply IH.
Qed.

(** X18. [startQuiz] opens the quiz on a queue holding the key of every
    alternative (or every vocabulary word) in display order; when the
    clicked key is one of them the quiz starts on an item carrying that key,
    otherwise it starts on the first item. *)
Theorem X18_startQuiz_starts_on_clicked
  (lower : jsstring -> jsstring) (results : Results) (mode : QuizMode)
  (clickedKey : jsstring) :
  let q := startQuiz lower results mode clickedKey in
  quiz_open q = true /\ quiz_mode q = Some mode
  /\ quiz_queue q = quiz_keys lower results mode
  /\ (clickedKey ∈ quiz_keys lower results mode ->
      quiz_in_range q
      /\ quiz_queue q !! Z.to_nat (quiz_index q) = Some clickedKey)
  /\ (clickedKey ∉ quiz_keys lower results mode -> quiz_index q = 0).
Proof.
  rewrite startQuiz_fold. cbn zeta.
  pose proof (push_keys clickedKey (quiz_keys lower results mode) [] 0)
    as Hp. cbn zeta in Hp.
  set (r := fold_left (push_key clickedKey) (quiz_keys lower results mode)
              ([], 0)) in *.
  destruct Hp as (Hq & Hin & Hout). cbn [app length] in *.
  unfold quiz_in_range.
  cbn [quiz_open quiz_mode quiz_queue quiz_index].
  rewrite Hq. split; [done|]. split; [done|]. split; [done|]. split.
  - intros Hc. destruct (Hin Hc) as [Hr Hl]. split; [lia|done].
  - exact Hout.
Qed.

Lemma X18_startQuiz_starts_on_clicked_witness :
  quiz_index (startQuiz ascii_lower
    (mkResults [] [mkVocab (str "Mhm") [] []; mkVocab (str "Folder") [] []])
    ModeVocab (str "vocab::folder")) = 1.
Proof.
  pose proof (X18_startQuiz_starts_on_clicked ascii_lower
    (mkResults [] [mkVocab (str "Mhm") [] []; mkVocab (str "Folder") [] []])
    ModeVocab (str "vocab::folder")) as (_ & _ & _ & Hin & _).
  destruct Hin as [_ Hl].
  - vm_compute. in_list.
  - reflexivity.
Defined.

(** ** Vocabulary keys *)

Lemma startsWith_app p s : startsWith p (p ++ s) = true.
Proof. induction p as [|c p IH]; [done|]. simpl. by rewrite Z.eqb_refl. Qed.

Lemma resolveVocabByKey_key lower results w :
  resolveVocabByKey lower results (getVocabKey lower w)
  = find_vocab lower (lower w) (vocabulary results).
Proof.
  unfold resolveVocabByKey, getVocabKey.
  rewrite startsWith_app. by rewrite (drop_app_length (str "vocab::")).
Qed.

Lemma find_vocab_first lower w vs v :
  v ∈ vs -> lower (word v) = w ->
  exists v', find_vocab lower w vs = Some (mkResolved (word v') (VocabMeta v'))
             /\ v' ∈ vs /\ lower (word v') = w.
Proof.
  induction vs as [|x vs IH]; [by intros ?%elem_of_nil|].
  intros Hin Hw. simpl. destruct (str_eq (lower (word x)) w) eqn:E.
  - apply str_eq_true in E. exists x. split; [done|]. split; [by left|done].
  - apply elem_of_cons in Hin as [->|Hin].
    + apply bool_decide_eq_false in E. done.
    + destruct (IH Hin Hw) as (v' & Hf & Hv' & Hl).
      exists v'. split; [done|]. split; [by right|done].
Qed.


Lemma nodup_key_unique {A} (f : A -> jsstring) l x y :
  NoDup (map f l) -> x ∈ l -> y ∈ l -> f x = f y -> x = y.
Proof.
  induction l as [|a l IH]; [by intros _ ?%elem_of_nil|].
  simpl. intros Hnd Hx Hy Heq. apply NoDup_cons in Hnd as [Ha Hnd].
  apply elem_of_cons in Hx as [->|Hx], Hy as [->|Hy]; try done.
  - exfalso. apply Ha. rewrite Heq. apply list_elem_of_fmap. by exists y.
  - exfalso. apply Ha. rewrite <- Heq. apply list_elem_of_fmap. by exists x.
  - by apply IH.
Qed.



(** ** De-duplication of the vocabulary *)

Lemma dedupVocab_spec lower bag : forall seen,
  let out := dedupVocab lower seen bag in
  NoDup (map (fun x => lower (word x)) out)
  /\ (forall x, x ∈ out -> (lower (word x) ∉ seen) /\ x ∈ bag)
  /\ sublist out bag
  /\ (forall v, v ∈ bag -> lower (word v) ∉ seen ->
        exists v', v' ∈ out /\ lower (word v') = lower (word v)).
Proof.
  induction bag as [|b bag IH]; intros seen; cbn zeta; cbn [dedupVocab].
  - split; [constructor|]. split; [by intros ? ?%elem_of_nil|].
    split; [constructor|]. by intros ? ?%elem_of_nil.
  - destruct (decide (lower (word b) ∈ seen)) as [Hs|Hs].
    + destruct (IH seen) as (Hnd & Hout & Hsub & Hrep).
      split; [done|]. split.
      { intros x Hx. destruct (Hout x Hx). split; [done|by right]. }
      split; [by constructor|].
      intros v Hv Hn. apply elem_of_cons in Hv as [->|Hv]; [done|].
      by apply Hrep.
    + destruct (IH ({[lower (word b)]} ∪ seen)) as (Hnd & Hout & Hsub & Hrep).
      split.
      { cbn [map]. constructor; [|done]. intros Hin.
        apply list_elem_of_fmap in Hin as (x & Hx & Hin).
        destruct (Hout x Hin) as [Hn _]. apply Hn. rewrite <- Hx.
        apply elem_of_union_l. by apply elem_of_singleton. }
      split.
      { intros x Hx. apply elem_of_cons in Hx as [->|Hx].
        - split; [done|by left].
        - destruct (Hout x Hx) as [Hn ?]. split; [|by right].
          intros ?. apply Hn. by apply elem_of_union_r. }
      split; [by constructor|].
      intros v Hv Hn.
      destruct (decide (lower (word v) = lower (word b))) as [Heq|Hne].
      * exists b. split; [by left|done].
      * apply elem_of_cons in Hv as [->|Hv]; [done|].
        destruct (Hrep v Hv) as (v' & Hv' & Hl).
        { by intros [?%elem_of_singleton|?]%elem_of_union. }
        exists v'. split; [by right|done].
Qed.

(** X20. The vocabulary kept by [handleAnalyze] is the collected words in
    their order with later repetitions removed: no two kept words have the
    same lower-cased text, every collected word still has a kept word with
    its lower-cased text, and the key of every kept word resolves to that
    very word. *)
Theorem X20_dedupVocab
  (lower : jsstring -> jsstring) (ss : list Sentence) (vocabBag : list Vocab) :
  let kept := dedupVocab lower ∅ vocabBag in
  NoDup (map (fun x => lower (word x)) kept)
  /\ sublist kept vocabBag
  /\ (forall v, v ∈ vocabBag ->
        exists v', v' ∈ kept /\ lower (word v') = lower (word v))
  /\ (forall v, v ∈ kept ->
        resolveVocabByKey lower (mkResults ss kept)
          (getVocabKey lower (word v))
        = Some (mkResolved (word v) (VocabMeta v))).
Proof.
  cbn zeta. destruct (dedupVocab_spec lower vocabBag ∅)
    as (Hnd & _ & Hsub & Hrep). cbn zeta in *.
  split; [done|]. split; [done|]. split.
  - intros v Hv. apply Hrep; [done|]. apply not_elem_of_empty.
  - intros v Hv. rewrite resolveVocabByKey_key. cbn [vocabulary].
    destruct (find_vocab_first lower (lower (word v))
                (dedupVocab lower ∅ vocabBag) v)
      as (v' & Hf & Hv' & Hl); [done|done|].
    rewrite Hf.
    by rewrite (nodup_key_unique (fun x => lower (word x))
                  (dedupVocab lower ∅ vocabBag) v' v).
Qed.

(** ** Alternative keys *)

Lemma split_dcolon_cons c s :
  (forall d s', s = d :: s' -> (c =? COLON) && (d =? COLON) = false) ->
  s <> [] ->
  split_dcolon (c :: s)
  = match split_dcolon s with
    | l :: ls => (c :: l) :: ls
    | [] => [[c]]
    end.
Proof.
  intros H Hne. destruct s as [|d s']; [done|].
  cbn [split_dcolon]. by rewrite (H d s' eq_refl).
Qed.

Lemma split_dcolon_field p s :
  field_ok p = true ->
  split_dcolon (p ++ DCOLON ++ s) = p :: split_dcolon s.
Proof.
  induction p as [|c p IH]; [done|]. cbn [field_ok].
  destruct p as [|d p'].
  - intros Hc. apply negb_true_iff in Hc.
    change ([c] ++ DCOLON ++ s) with (c :: COLON :: COLON :: s).
    rewrite split_dcolon_cons; [|intros ? ? [= <- _]; by rewrite Hc|done].
    reflexivity.
  - rewrite andb_true_iff, negb_true_iff. intros [Hcd Hp].
    change ((c :: d :: p') ++ DCOLON ++ s)
      with (c :: ((d :: p') ++ DCOLON ++ s)).
    rewrite split_dcolon_cons; [|by intros ? ? [= <- _]|done].
    by rewrite IH.
Qed.

Lemma split_dcolon_whole p : no_dcolon p = true -> split_dcolon p = [p].
Proof.
  induction p as [|c p IH]; [done|]. cbn [no_dcolon].
  destruct p as [|d p']; [done|].
  rewrite andb_true_iff, negb_true_iff. intros [Hcd Hp].
  rewrite split_dcolon_cons; [|by intros ? ? [= <- _]|done].
  by rewrite IH.
Qed.

Lemma split_getAltKey s a :
  field_ok (default (str "t0") (timestamp s)) = true ->
  field_ok (original s) = true -> field_ok (level a) = true ->
  no_dcolon (phrase a) = true ->
  split_dcolon (getAltKey s a)
  = [default (str "t0") (timestamp s); original s; level a; phrase a].
Proof.
  intros Ht Ho Hl Hp. unfold getAltKey.
  by rewrite !split_dcolon_field, split_dcolon_whole.
Qed.

Lemma find_alt_found s a alts :
  a ∈ alts ->
  find_alt s (level a) (phrase a) alts
  = Some (mkResolved (phrase a)
            (AltMeta (level a) (selection_reason_type s)
               (selection_reason_note s))).
Proof.
  induction alts as [|x alts IH]; [by intros ?%elem_of_nil|].
  intros Hin. cbn [find_alt].
  destruct (str_eq (level x) (level a)) eqn:El,
    (str_eq (phrase x) (phrase a)) eqn:Ep; cbn [andb].
  - apply str_eq_true in El, Ep. by rewrite El, Ep.
  - apply elem_of_cons in Hin as [->|Hin]; [|by apply IH].
    apply bool_decide_eq_false in Ep. done.
  - apply elem_of_cons in Hin as [->|Hin]; [|by apply IH].
    apply bool_decide_eq_false in El. done.
  - apply elem_of_cons in Hin as [->|Hin]; [|by apply IH].
    apply bool_decide_eq_false in El. done.
Qed.

Lemma find_alt_result s lvl phr alts r :
  find_alt s lvl phr alts = Some r ->
  resolved_phrase r = phr
  /\ resolved_meta r
     = AltMeta lvl (selection_reason_type s) (selection_reason_note s).
Proof.
  induction alts as [|x alts IH]; [done|]. cbn [find_alt].
  destruct (str_eq (level x) lvl) eqn:El, (str_eq (phrase x) phr) eqn:Ep;
    cbn [andb]; try apply IH.
  apply str_eq_true in El, Ep. intros [= <-]. simpl. by rewrite El, Ep.
Qed.

Lemma find_sentence_alt_found ss s a :
  s ∈ ss -> a ∈ alternatives s ->
  exists r s',
    find_sentence_alt (default (str "t0") (timestamp s)) (original s)
      (level a) (phrase a) ss = Some r
    /\ s' ∈ ss
    /\ resolved_phrase r = phrase a
    /\ resolved_meta r
       = AltMeta (level a) (selection_reason_type s')
           (selection_reason_note s').
Proof.
  induction ss as [|x ss IH]; [by intros ?%elem_of_nil|].
  intros Hs Ha. cbn [find_sentence_alt].
  assert (Hrest : s ∈ ss ->
    exists r s',
      find_sentence_alt (default (str "t0") (timestamp s)) (original s)
        (level a) (phrase a) ss = Some r
      /\ s' ∈ x :: ss
      /\ resolved_phrase r = phrase a
      /\ resolved_meta r
         = AltMeta (level a) (selection_reason_type s')
             (selection_reason_note s')).
  { intros Hin. destruct (IH Hin Ha) as (r & s' & Hf & Hs' & Hp & Hm).
    exists r, s'. split; [done|]. split; [by right|done]. }
  destruct (str_eq (default (str "t0") (timestamp x)) _) eqn:Et,
    (str_eq (original x) (original s)) eqn:Eo; cbn [andb].
  - destruct (find_alt x (level a) (phrase a) (alternatives x)) as [r|] eqn:Hf.
    + apply find_alt_result in Hf as [Hp Hm].
      exists r, x. split; [done|]. split; [by left|done].
    + apply elem_of_cons in Hs as [->|Hs]; [|by apply Hrest].
      by rewrite find_alt_found in Hf.
  - apply elem_of_cons in Hs as [->|Hs]; [|by apply Hrest].
    apply bool_decide_eq_false in Eo. done.
  - apply elem_of_cons in Hs as [->|Hs]; [|by apply Hrest].
    apply bool_decide_eq_false in Et. done.
  - apply elem_of_cons in Hs as [->|Hs]; [|by apply Hrest].
    apply bool_decide_eq_false in Et. done.
Qed.

Lemma resolve_alt_key results s a :
  s ∈ sentences results -> a ∈ alternatives s ->
  field_ok (default (str "t0") (timestamp s)) = true ->
  field_ok (original s) = true -> field_ok (level a) = true ->
  no_dcolon (phrase a) = true ->
  exists r s',
    resolveAltByKey results (getAltKey s a) = Some r
    /\ s' ∈ sentences results
    /\ resolved_phrase r = phrase a
    /\ resolved_meta r
       = AltMeta (level a) (selection_reason_type s')
           (selection_reason_note s').
Proof.
  intros Hs Ha Ht Ho Hl Hp. unfold resolveAltByKey.
  rewrite split_getAltKey by done. by apply find_sentence_alt_found.
Qed.

(** X21. The key of an alternative of a listed sentence resolves to an
    entry with that alternative's phrase and level, provided the timestamp,
    the original and the level hold no "::" and do not end with a colon, and
    the phrase holds no "::".  A key that does not split at "::" into exactly
    four parts resolves to [null]. *)
Theorem X21_alt_key_roundtrip (results : Results) (s : Sentence) (a : Alt) :
  s ∈ sentences results -> a ∈ alternatives s ->
  field_ok (default (str "t0") (timestamp s)) = true ->
  field_ok (original s) = true -> field_ok (level a) = true ->
  no_dcolon (phrase a) = true ->
  (exists r s',
     resolveAltByKey results (getAltKey s a) = Some r
     /\ s' ∈ sentences results
     /\ resolved_phrase r = phrase a
     /\ resolved_meta r
        = AltMeta (level a) (selection_reason_type s')
            (selection_reason_note s'))
  /\ (forall key, length (split_dcolon key) <> 4%nat ->
        resolveAltByKey results key = None).
Proof.
  intros Hs Ha Ht Ho Hl Hp. split; [by apply resolve_alt_key|].
  intros key Hlen. unfold resolveAltByKey.
  by destruct (split_dcolon key) as [|? [|? [|? [|? [|? ?]]]]].
Qed.

Lemma X21_alt_key_roundtrip_witness :
  exists r,
    resolveAltByKey
      (mkResults
         [mkSentence (Some (str "00:01:00")) (str "Simon: I goed home")
            None (str "grammar") (str "past tense")
            [mkAlt (str "B2") (str "I went home") (str "irregular verb")]]
         [])
      (str "00:01:00::Simon: I goed home::B2::I went home") = Some r
    /\ resolved_phrase r = str "I went home".
Proof.
  destruct (X21_alt_key_roundtrip
    (mkResults
       [mkSentence (Some (str "00:01:00")) (str "Simon: I goed home")
          None (str "grammar") (str "past tense")
          [mkAlt (str "B2") (str "I went home") (str "irregular verb")]]
       [])
    (mkSentence (Some (str "00:01:00")) (str "Simon: I goed home")
       None (str "grammar") (str "past tense")
       [mkAlt (str "B2") (str "I went home") (str "irregular verb")])
    (mkAlt (str "B2") (str "I went home") (str "irregular verb")))
    as ((r & s' & Hr & _ & Hp & _) & _).
  - simpl. in_list.
  - simpl. in_list.
  - reflexivity.
  - reflexivity.
  - reflexivity.
  - reflexivity.
  - exists r. split; [exact Hr|exact Hp].
Defined.

(** X22. Opening the quiz from an alternative shows that alternative:
    after [startQuiz] in "alt" mode with the key of an alternative of a
    listed sentence, the key at the quiz index resolves to an entry with the
    alternative's phrase (fields as in X21). *)
Theorem X22_quiz_opens_on_clicked_alternative
  (lower : jsstring -> jsstring) (results : Results) (s : Sentence) (a : Alt) :
  s ∈ sentences results -> a ∈ alternatives s ->
  field_ok (default (str "t0") (timestamp s)) = true ->
  field_ok (original s) = true -> field_ok (level a) = true ->
  no_dcolon (phrase a) = true ->
  let q := startQuiz lower results ModeAlt (getAltKey s a) in
  exists key r,
    quiz_queue q !! Z.to_nat (quiz_index q) = Some key
    /\ resolveAltByKey results key = Some r
    /\ resolved_phrase r = phrase a.
Proof.
  intros Hs Ha Ht Ho Hl Hp. cbn zeta. rewrite startQuiz_fold. cbn zeta.
  pose proof (push_keys (getAltKey s a) (quiz_keys lower results ModeAlt)
                [] 0) as Hk. cbn zeta in Hk.
  set (r := fold_left (push_key (getAltKey s a))
              (quiz_keys lower results ModeAlt) ([], 0)) in *.
  destruct Hk as (Hq & Hin & _). cbn [app] in *.
  cbn [quiz_queue quiz_index]. rewrite Hq.
  destruct Hin as [_ Hl'].
  { unfold quiz_keys. apply list_elem_of_In, in_flat_map. exists s.
    split; [by apply list_elem_of_In|].
    apply list_elem_of_In, list_elem_of_fmap. by exists a. }
  destruct (resolve_alt_key results s a) as (res & _ & Hr & _ & Hph & _);
    try done.
  by exists (getAltKey s a), res.
Qed.

Lemma X22_quiz_opens_on_clicked_alternative_witness :
  exists key r,
    quiz_queue (startQuiz ascii_lower
      (mkResults
         [mkSentence None (str "I goed home") None (str "grammar")
            (str "past tense")
            [mkAlt (str "B2") (str "I went home") [];
             mkAlt (str "C1") (str "I headed home") []]]
         [])
      ModeAlt (str "t0::I goed home::C1::I headed home"))
    !! 1%nat = Some key
    /\ resolveAltByKey
         (mkResults
            [mkSentence None (str "I goed home") None (str "grammar")
               (str "past tense")
               [mkAlt (str "B2") (str "I went home") [];
                mkAlt (str "C1") (str "I headed home") []]]
            []) key = Some r
    /\ resolved_phrase r = str "I headed home".
Proof.
  apply (X22_quiz_opens_on_clicked_alternative ascii_lower
    (mkResults
       [mkSentence None (str "I goed home") None (str "grammar")
          (str "past tense")
          [mkAlt (str "B2") (str "I went home") [];
           mkAlt (str "C1") (str "I headed home") []]]
       [])
    (mkSentence None (str "I goed home") None (str "grammar")
       (str "past tense")
       [mkAlt (str "B2") (str "I went home") [];
        mkAlt (str "C1") (str "I headed home") []])
    (mkAlt (str "C1") (str "I headed home") [])).
  - simpl. in_list.
  - simpl. in_list.
  - reflexivity.
  - reflexivity.
  - reflexivity.
  - reflexivity.
Defined.

(** ** Favourites *)

Lemma toggle_key_twice key keys : toggle_key key (toggle_key key keys) = keys.
Proof.
  unfold toggle_key. destruct (decide (key ∈ keys)) as [Hin|Hout].
  - rewrite decide_False by (rewrite elem_of_difference, elem_of_singleton; tauto).
    apply set_eq. intros x.
    rewrite elem_of_union, elem_of_difference, !elem_of_singleton.
    destruct (decide (x = key)) as [->|]; tauto.
  - rewrite decide_True by (apply elem_of_union_l; by apply elem_of_singleton).
    apply set_eq. intros x.
    rewrite elem_of_difference, elem_of_union, !elem_of_singleton.
    destruct (decide (x = key)) as [->|]; tauto.
Qed.

Lemma toggle_key_elem key keys x :
  x ∈ toggle_key key keys <-> (if decide (x = key) then x ∉ keys else x ∈ keys).
Proof.
  unfold toggle_key.
  destruct (decide (key ∈ keys)), (decide (x = key)) as [->|];
    rewrite ?elem_of_difference, ?elem_of_union, !elem_of_singleton; tauto.
Qed.

(** X23. Toggling a favourite flips the membership of that sentence's key
    and of no other key, leaves the vocabulary favourites alone, and toggling
    twice restores the favourites.  The key of a sentence is made of its
    timestamp and the first 120 characters of its original only, so
    sentences agreeing on these are favourites together. *)
Theorem X23_toggle_favourite (s s' : Sentence) (prev : Favorites) :
  toggleSentenceFavorite s (toggleSentenceFavorite s prev) = prev
  /\ (getSentenceKey s ∈ fav_sentences (toggleSentenceFavorite s prev)
      <-> getSentenceKey s ∉ fav_sentences prev)
  /\ (forall key, key <> getSentenceKey s ->
        key ∈ fav_sentences (toggleSentenceFavorite s prev)
        <-> key ∈ fav_sentences prev)
  /\ fav_vocabulary (toggleSentenceFavorite s prev) = fav_vocabulary prev
  /\ (timestamp s = timestamp s' ->
      take 120 (original s) = take 120 (original s') ->
      toggleSentenceFavorite s prev = toggleSentenceFavorite s' prev).
Proof.
  destruct prev as [fs fv]. unfold toggleSentenceFavorite. simpl.
  split; [by rewrite toggle_key_twice|]. split.
  { rewrite toggle_key_elem. by rewrite decide_True. }
  split.
  { intros key Hk. rewrite toggle_key_elem. by rewrite decide_False. }
  split; [done|].
  intros Ht Ho. unfold getSentenceKey. rewrite !slice0_take by lia.
  change (Z.to_nat 120) with 120%nat. by rewrite Ht, Ho.
Qed.

(** * The guard of the Analyze button and the splitter *)

Lemma search_inv r s : forall st,
  search r st s = true ->
  exists a b, s = a ++ b
    /\ match_here r (st && match a with [] => true | _ => false end) b = true.
Proof.
  induction s as [|c s IH]; intros st; simpl.
  - rewrite orb_false_r. intros H. exists [], []. by rewrite andb_true_r.
  - intros [H|H]%orb_true_iff.
    + exists [], (c :: s). by rewrite andb_true_r.
    + destruct (IH false H) as (a & b & -> & Hm).
      exists (c :: a), b. split; [done|]. by rewrite andb_false_r.
Qed.

Lemma match_star_inv p r s : forall st,
  match_here (Star p :: r) st s = true ->
  exists w rest st',
    s = w ++ rest /\ Forall (fun c => p c = true) w
    /\ match_here r st' rest = true.
Proof.
  induction s as [|c s IH]; intros st H.
  - exists [], [], st. by repeat split.
  - change (match_here (Star p :: r) st (c :: s))
      with ((p c && match_here (Star p :: r) false s)
            || match_here r st (c :: s)) in H.
    apply orb_true_iff in H as [[Hc H]%andb_true_iff|H].
    + destruct (IH false H) as (w & rest & st' & -> & Hw & Hm).
      exists (c :: w), rest, st'. split; [done|]. split; [by constructor|done].
    + exists [], (c :: s), st. by repeat split.
Qed.

Lemma match_clock_inv r st s :
  match_here (clock_pattern ++ r) st s = true ->
  exists d1 d2 d3 d4 d5 d6 w rest st',
    s = clock_text d1 d2 d3 d4 d5 d6 ++ w ++ rest
    /\ all_digits [d1; d2; d3; d4; d5; d6] /\ all_space w
    /\ match_here r st' rest = true.
Proof.
  unfold clock_pattern. cbn [app].
  destruct s as [|d1 [|d2 [|c1 [|d3 [|d4 [|c2 [|d5 [|d6 s]]]]]]]];
    rewrite ?match_cls, ?match_cls_nil, ?andb_false_r; try discriminate.
  rewrite !andb_true_iff.
  intros (H1 & H2 & Hc1 & H3 & H4 & Hc2 & H5 & H6 & Hs).
  apply Z.eqb_eq in Hc1, Hc2. subst c1 c2.
  destruct (match_star_inv _ _ _ _ Hs) as (w & rest & st' & -> & Hw & Hm).
  exists d1, d2, d3, d4, d5, d6, w, rest, st'.
  split; [done|]. split; [by repeat constructor|]. by split.
Qed.

Lemma match_end_inv (r : regex) st rest :
  (r = [Cls (Z.eqb LF)] \/ r = [Eol]) -> match_here r st rest = true ->
  rest = [] \/ exists t, rest = LF :: t.
Proof.
  intros [->| ->]; destruct rest as [|c t].
  - by left.
  - rewrite match_cls. intros [Hc%Z.eqb_eq _]%andb_true_iff. subst c.
    right. by eexists.
  - by left.
  - discriminate.
Qed.

(** The shape of a transcript with [hasTimestamp]. *)
Lemma hasTimestamp_inv raw :
  hasTimestamp raw = true ->
  exists p d1 d2 d3 d4 d5 d6 w t,
    raw = p ++ clock_text d1 d2 d3 d4 d5 d6 ++ w ++ t
    /\ at_line_start p
    /\ all_digits [d1; d2; d3; d4; d5; d6] /\ all_space w
    /\ (t = [] \/ exists t', t = LF :: t').
Proof.
  unfold hasTimestamp, hasTimestampRegex. cbn [existsb].
  rewrite orb_false_r, !orb_true_iff.
  assert (Hbol : forall e, (e = [Cls (Z.eqb LF)] \/ e = [Eol]) ->
    test (Bol :: clock_pattern ++ e) raw = true ->
    exists p d1 d2 d3 d4 d5 d6 w t,
      raw = p ++ clock_text d1 d2 d3 d4 d5 d6 ++ w ++ t
      /\ at_line_start p
      /\ all_digits [d1; d2; d3; d4; d5; d6] /\ all_space w
      /\ (t = [] \/ exists t', t = LF :: t')).
  { intros e He Ht. rewrite test_bol in Ht.
    destruct (match_clock_inv _ _ _ Ht)
      as (d1 & d2 & d3 & d4 & d5 & d6 & w & t & st' & -> & Hd & Hw & Hm).
    exists [], d1, d2, d3, d4, d5, d6, w, t.
    split; [done|]. split; [by left|]. split; [done|]. split; [done|].
    by apply (match_end_inv e st'). }
  assert (Hlf : forall e, (e = [Cls (Z.eqb LF)] \/ e = [Eol]) ->
    test (Cls (Z.eqb LF) :: clock_pattern ++ e) raw = true ->
    exists p d1 d2 d3 d4 d5 d6 w t,
      raw = p ++ clock_text d1 d2 d3 d4 d5 d6 ++ w ++ t
      /\ at_line_start p
      /\ all_digits [d1; d2; d3; d4; d5; d6] /\ all_space w
      /\ (t = [] \/ exists t', t = LF :: t')).
  { intros e He Ht. unfold test in Ht.
    destruct (search_inv _ _ _ Ht) as (a & b & -> & Hm).
    destruct b as [|c b]; [by rewrite match_cls_nil in Hm|].
    rewrite match_cls in Hm. apply andb_true_iff in Hm as [Hc Hm].
    apply Z.eqb_eq in Hc. subst c.
    destruct (match_clock_inv _ _ _ Hm)
      as (d1 & d2 & d3 & d4 & d5 & d6 & w & t & st' & -> & Hd & Hw & Hm').
    exists (a ++ [LF]), d1, d2, d3, d4, d5, d6, w, t.
    split; [by rewrite <- app_assoc|]. split; [right; by eexists|].
    split; [done|]. split; [done|]. by apply (match_end_inv e st'). }
  intros [H|[H|[H|H]]];
    [apply (Hbol [Cls (Z.eqb LF)])|apply (Hbol [Eol])
    |apply (Hlf [Cls (Z.eqb LF)])|apply (Hlf [Eol])]; auto.
Qed.

(** *** Normalising the line endings around a timestamp *)

Lemma replace_crlf_eq c d s :
  replace_crlf (c :: d :: s)
  = if (c =? CR) && (d =? LF) then LF :: replace_crlf s
    else c :: replace_crlf (d :: s).
Proof. reflexivity. Qed.

Lemma replace_crlf_app_aux n : forall x y,
  (length x <= n)%nat -> (forall y', y <> LF :: y') ->
  replace_crlf (x ++ y) = replace_crlf x ++ replace_crlf y.
Proof.
  induction n as [|n IH]; intros x y Hlen Hy.
  - destruct x; [done|simpl in Hlen; lia].
  - destruct x as [|c [|d x]]; [done| |].
    + destruct y as [|e y]; [done|]. simpl.
      destruct (Z.eqb_spec c CR), (Z.eqb_spec e LF); simpl; try done.
      subst. by destruct (Hy y).
    + simpl in Hlen. change ((c :: d :: x) ++ y) with (c :: d :: (x ++ y)).
      rewrite !replace_crlf_eq. destruct ((c =? CR) && (d =? LF)).
      * rewrite (IH x y) by (done || lia). done.
      * change (d :: x ++ y) with ((d :: x) ++ y).
        rewrite (IH (d :: x) y) by (done || simpl; lia). done.
Qed.

Lemma replace_crlf_app x y :
  (forall y', y <> LF :: y') ->
  replace_crlf (x ++ y) = replace_crlf x ++ replace_crlf y.
Proof. apply (replace_crlf_app_aux (length x)). lia. Qed.

Lemma replace_crlf_snoc_lf_aux n : forall x,
  (length x <= n)%nat -> exists y, replace_crlf (x ++ [LF]) = y ++ [LF].
Proof.
  induction n as [|n IH]; intros x Hlen.
  - destruct x; [by exists []|simpl in Hlen; lia].
  - destruct x as [|c [|d x]]; [by exists []| |].
    + simpl. destruct (c =? CR); [by exists []|by exists [c]].
    + simpl in Hlen. change ((c :: d :: x) ++ [LF]) with (c :: d :: (x ++ [LF])).
      rewrite replace_crlf_eq. destruct ((c =? CR) && (d =? LF)).
      * destruct (IH x ltac:(lia)) as [y ->]. by exists (LF :: y).
      * change (d :: x ++ [LF]) with ((d :: x) ++ [LF]).
        destruct (IH (d :: x) ltac:(simpl; lia)) as [y ->]. by exists (c :: y).
Qed.

Lemma normalize_line_start p :
  at_line_start p -> at_line_start (replace_cr (replace_crlf p)).
Proof.
  intros [->|[p' ->]]; [by left|]. right.
  destruct (replace_crlf_snoc_lf_aux (length p') p' ltac:(lia)) as [y ->].
  exists (replace_cr y). unfold replace_cr. by rewrite map_app.
Qed.

Lemma replace_crlf_clock d1 d2 d3 d4 d5 d6 s :
  all_digits [d1; d2; d3; d4; d5; d6] ->
  replace_cr (replace_crlf (clock_text d1 d2 d3 d4 d5 d6 ++ s))
  = clock_text d1 d2 d3 d4 d5 d6 ++ replace_cr (replace_crlf s).
Proof.
  intros Hd. unfold all_digits in Hd. rewrite !Forall_cons in Hd.
  destruct Hd as (H1 & H2 & H3 & H4 & H5 & H6 & _).
  assert (Hcr : forall d, is_digit d = true -> d <> CR)
    by (unfold is_digit, CR; lia).
  unfold clock_text. cbn [app].
  rewrite !replace_crlf_cons by (auto || done).
  unfold replace_cr. cbn [map].
  repeat match goal with
  | |- context [?d =? CR] =>
      replace (d =? CR) with false
        by (symmetry; apply Z.eqb_neq; auto; done)
  end.
  reflexivity.
Qed.

Lemma first_line_normalized_aux n : forall w t,
  (length w <= n)%nat -> all_space w -> (t = [] \/ exists t', t = LF :: t') ->
  all_space (first_line (replace_cr (replace_crlf (w ++ t)))).
Proof.
  induction n as [|n IH]; intros w t Hlen Hw Ht.
  - destruct w; [|simpl in Hlen; lia]. simpl.
    destruct Ht as [->|[t' ->]]; [constructor|].
    rewrite replace_crlf_cons by done. simpl. constructor.
  - destruct w as [|c w]; [apply (IH [] t); [simpl; lia|done|done]|].
    apply Forall_cons in Hw as [Hc Hw]. simpl in Hlen.
    change ((c :: w) ++ t) with (c :: (w ++ t)).
    destruct (w ++ t) as [|e rest] eqn:Hrest.
    + unfold replace_cr. cbn [replace_crlf map first_line].
      destruct (Z.eqb_spec c CR); cbn [first_line];
        [change (LF =? LF) with true; constructor|].
      destruct (Z.eqb_spec c LF); [constructor|].
      by repeat constructor.
    + rewrite replace_crlf_eq. destruct (Z.eqb_spec c CR) as [->|Hcr].
      * destruct (e =? LF); simpl; constructor.
      * cbn [andb]. unfold replace_cr. cbn [map].
        rewrite (proj2 (Z.eqb_neq c CR) Hcr).
        cbn [first_line]. destruct (Z.eqb_spec c LF); [constructor|].
        constructor; [done|]. rewrite <- Hrest.
        apply IH; [lia|done|done].
Qed.

Lemma first_line_spec s :
  exists rest, s = first_line s ++ rest
               /\ (rest = [] \/ exists r, rest = LF :: r)
               /\ Forall (fun c => c <> LF) (first_line s).
Proof.
  induction s as [|c s (rest & Hs & Hr & Hn)]; simpl.
  - exists []. split; [done|]. split; [by left|constructor].
  - destruct (Z.eqb_spec c LF) as [->|Hc].
    + exists (LF :: s). split; [done|]. split; [right; by eexists|constructor].
    + exists rest. split; [simpl; by f_equal|]. split; [done|by constructor].
Qed.

Lemma first_line_prefix x y :
  all_space (first_line (x ++ y)) -> all_space (first_line x).
Proof.
  induction x as [|c x IH]; simpl; [constructor|].
  destruct (c =? LF); [done|]. intros [Hc H]%Forall_cons.
  constructor; [done|by apply IH].
Qed.

(** *** Trimming and splitting around a timestamp *)

Lemma trimStart_app_nonspace x c r :
  is_space c = false -> trimStart (x ++ c :: r) = trimStart x ++ c :: r.
Proof.
  intros Hc. induction x as [|e x IH]; simpl; [by rewrite Hc|].
  by destruct (is_space e).
Qed.

Lemma trimEnd_app_nonspace x c r :
  is_space c = false -> trimEnd (x ++ c :: r) = x ++ c :: trimEnd r.
Proof.
  intros Hc. unfold trimEnd. rewrite rev_app_distr. simpl.
  rewrite <- app_assoc. simpl.
  rewrite trimStart_app_nonspace by done.
  rewrite rev_app_distr. simpl. rewrite rev_involutive.
  by rewrite <- app_assoc.
Qed.

Lemma suffix_line_start ws x p :
  ws ++ x = p -> at_line_start p -> at_line_start x.
Proof.
  intros <- [Hnil|[p' Hp]].
  - apply app_eq_nil in Hnil as [_ ->]. by left.
  - destruct x as [|c x'] using rev_ind; [by left|]. right.
    rewrite app_assoc in Hp. apply app_inj_tail in Hp as [_ ->].
    by eexists.
Qed.

Lemma split_on_after sep x s :
  exists p0 pre, split_on sep (x ++ sep :: s) = (p0 :: pre) ++ split_on sep s.
Proof.
  induction x as [|c x (p0 & pre & IH)]; simpl.
  - rewrite Z.eqb_refl. by exists [], [].
  - rewrite IH. destruct (c =? sep).
    + by exists [], (p0 :: pre).
    + by exists (c :: p0), pre.
Qed.

Lemma split_on_head_elem sep l : hd [] (split_on sep l) ∈ split_on sep l.
Proof.
  destruct l as [|c l]; simpl; [by left|].
  destruct (c =? sep); [by left|].
  destruct (split_on sep l); by left.
Qed.

(** A line that starts at a line start and runs to a line feed or to the
    end is one of the lines of the text. *)
Lemma split_on_line p line rest :
  at_line_start p -> Forall (fun c => c <> LF) line ->
  (rest = [] \/ exists r, rest = LF :: r) ->
  line ∈ split_on LF (p ++ line ++ rest).
Proof.
  intros Hp Hline Hrest.
  assert (Hhd : line ∈ split_on LF (line ++ rest)).
  { destruct (hd_split_on LF line [] Hline) as [_ H2].
    destruct Hrest as [->|[r ->]].
    - rewrite app_nil_r. rewrite <- H2 at 1. apply split_on_head_elem.
    - destruct (hd_split_on LF line r Hline) as [H1 _].
      rewrite <- H1 at 1. apply split_on_head_elem. }
  destruct Hp as [->|[p' ->]]; [done|].
  rewrite <- app_assoc. simpl.
  destruct (split_on_after LF p' (line ++ rest)) as (p0 & pre & ->).
  apply elem_of_app. by right.
Qed.

Lemma clock_no_lf d1 d2 d3 d4 d5 d6 :
  all_digits [d1; d2; d3; d4; d5; d6] ->
  Forall (fun c => c <> LF) (clock_text d1 d2 d3 d4 d5 d6).
Proof.
  intros Hd. unfold all_digits in Hd. rewrite !Forall_cons in Hd.
  destruct Hd as (H1 & H2 & H3 & H4 & H5 & H6 & _).
  unfold clock_text, is_digit, LF, COLON in *. repeat constructor; lia.
Qed.

Lemma replace_cr_app x y :
  replace_cr (x ++ y) = replace_cr x ++ replace_cr y.
Proof. apply map_app. Qed.

Lemma hasTimestamp_marker raw :
  hasTimestamp raw = true -> timestamp_marker_in (input_lines raw).
Proof.
  intros H.
  destruct (hasTimestamp_inv raw H)
    as (p & d1 & d2 & d3 & d4 & d5 & d6 & w & t & -> & Hp & Hd & Hw & Ht).
  pose proof Hd as Hd'. unfold all_digits in Hd'. rewrite !Forall_cons in Hd'.
  destruct Hd' as (H1 & _ & _ & _ & _ & H6 & _).
  unfold input_lines.
  rewrite replace_crlf_app
    by (intros y' [= -> _]; unfold is_digit, LF in H1; lia).
  rewrite replace_cr_app, replace_crlf_clock by done.
  assert (Hp2 : at_line_start (replace_cr (replace_crlf p)))
    by by apply normalize_line_start.
  assert (Hv : all_space (first_line (replace_cr (replace_crlf (w ++ t)))))
    by by apply (first_line_normalized_aux (length w)).
  generalize dependent (replace_cr (replace_crlf (w ++ t))). intros v Hv.
  generalize dependent (replace_cr (replace_crlf p)). intros p2 Hp2.
  unfold trim. unfold clock_text at 1. cbn [app].
  rewrite trimStart_app_nonspace by by apply digit_not_space.
  change (trimStart p2 ++ d1 :: d2 :: COLON :: d3 :: d4 :: COLON :: d5 :: d6 :: v)
    with (trimStart p2 ++ [d1; d2; COLON; d3; d4; COLON; d5] ++ d6 :: v).
  rewrite app_assoc, trimEnd_app_nonspace by by apply digit_not_space.
  rewrite <- app_assoc.
  change ([d1; d2; COLON; d3; d4; COLON; d5] ++ d6 :: trimEnd v)
    with (clock_text d1 d2 d3 d4 d5 d6 ++ trimEnd v).
  destruct (trimStart_suffix p2) as (ws1 & _ & Hs1).
  assert (Hp3 : at_line_start (trimStart p2))
    by (by apply (suffix_line_start ws1 _ p2)).
  destruct (trimEnd_prefix v) as (ws2 & _ & Hs2).
  assert (Hv' : all_space (first_line (trimEnd v)))
    by (apply (first_line_prefix _ ws2); by rewrite <- Hs2).
  destruct (first_line_spec (trimEnd v)) as (rest & Hsplit & Hrest & Hnolf).
  exists (clock_text d1 d2 d3 d4 d5 d6 ++ first_line (trimEnd v)).
  split; [|by constructor].
  rewrite Hsplit at 2. rewrite (app_assoc (clock_text _ _ _ _ _ _)).
  apply split_on_line; [done| |done].
  apply Forall_app. split; [by apply clock_no_lf|done].
Qed.

(** X24. The page enables the analysis only on a transcript in which the
    splitter finds a timestamp line: when [canAnalyze] holds, no analysis is
    running, the trimmed transcript has at least 40 characters and some line
    of the normalised transcript is a timestamp marker, so the splitter does
    not stop at "no timestamp found".  The guard is stricter than the
    splitter: a timestamp line that starts the transcript after white space
    is found by the splitter and not by the guard. *)
Theorem X24_canAnalyze_implies_timestamp_found
  (transcript : jsstring) (processing : bool) :
  canAnalyze transcript processing = true ->
  processing = false
  /\ (40 <= length (trim transcript))%nat
  /\ timestamp_marker_in (input_lines transcript)
  /\ find_first (input_lines transcript) 0 <> -1
  /\ hasTimestamp (str " 00:00:00
Hello") = false
  /\ find_first (input_lines (str " 00:00:00
Hello")) 0 = 0.
Proof.
  unfold canAnalyze. rewrite !andb_true_iff, negb_true_iff.
  intros [[Hts Hlen] Hproc]. apply Nat.leb_le in Hlen.
  pose proof (hasTimestamp_marker transcript Hts) as Hm.
  split; [done|]. split; [done|]. split; [done|].
  split; [|split; reflexivity].
  intros He. apply (find_first_none _ 0 ltac:(lia)) in He.
  destruct Hm as (m & Hin & Hmk). rewrite Forall_forall in He.
  apply test_timestampRegex_marker in Hmk. specialize (He m Hin).
  congruence.
Qed.

Lemma X24_canAnalyze_implies_timestamp_found_witness :
  timestamp_marker_in (input_lines (str "Private Class: Juan Ortega
00:00:00
Simon Sanchez: It worked, right?")).
Proof.
  apply (X24_canAnalyze_implies_timestamp_found
    (str "Private Class: Juan Ortega
00:00:00
Simon Sanchez: It worked, right?") false).
  reflexivity.
Defined.

(** * The speech-score request *)

(** X25. A request built by [scoreQuizRecording] from a recording whose type
    went through [canonicalizeMime] passes the route's validation whenever
    the phrase has 1 to 500 characters and the audio is not empty; whatever
    the phrase and the audio, it is never rejected as too long or for an
    unsupported audio type, and every rejection of the validation has
    status 400. *)
Theorem X25_quiz_request_passes_validation
  (lower : jsstring -> jsstring) (phrase_ blobType base64 : jsstring)
  (durationMs : Z) :
  let body := scoreQuizRecording_body phrase_
                (canonicalizeMime lower blobType) base64 durationMs in
  (phrase_ <> [] -> (length phrase_ <= 500)%nat -> base64 <> [] ->
   exists audio_format,
     POST_validation body = inr audio_format
     /\ mapMimeToFormat (canonicalizeMime lower blobType)
        = Some audio_format)
  /\ (forall r, POST_validation body = inl r ->
        code r = str "invalid_input"
        /\ message r <> str "Unsupported audio MIME")
  /\ (forall b r, POST_validation b = inl r -> status r = 400).
Proof.
  cbn zeta.
  destruct (canonicalizeMime lower blobType) as [|c0 m0] eqn:Hmime.
  - pose proof (canonicalizeMime_allowed lower blobType) as Hin.
    rewrite Hmime in Hin. exfalso. unfold allowed in Hin. not_in_list Hin.
  - pose proof (proj2 (mapMimeToFormat_allowed _)
                  (canonicalizeMime_allowed lower blobType)) as [fmt Hfmt].
    rewrite Hmime in Hfmt.
    unfold POST_validation, scoreQuizRecording_body.
    cbn [expectedText audio_mime audio_base64 audio_durationMs].
    rewrite Hfmt.
    assert (Hdur : (Z.min durationMs 10000 >? 10000) = false).
    { destruct (Z.gtb_spec (Z.min durationMs 10000) 10000); [lia|done]. }
    rewrite Hdur. split; [|split].
    + intros Hp Hl Hb. exists fmt.
      destruct phrase_ as [|c p]; [done|]. destruct base64 as [|b bs]; [done|].
      cbn [orb].
      destruct (Nat.ltb_spec 500 (length (c :: p))); [lia|]. done.
    + intros r.
      repeat match goal with
      | |- (if ?c then _ else _) = _ -> _ =>
          destruct c; [by intros [= <-]|]
      end.
      discriminate.
    + intros b r. unfold POST_validation.
      repeat match goal with
      | |- (if ?c then _ else _) = _ -> _ =>
          destruct c; [by intros [= <-]|]
      end.
      destruct (mapMimeToFormat (audio_mime b));
        [discriminate|by intros [= <-]].
Qed.

Lemma X25_quiz_request_passes_validation_witness :
  POST_validation
    (scoreQuizRecording_body (str "I went home")
       (canonicalizeMime ascii_lower (str "audio/webm;codecs=opus"))
       (str "GkXfo59ChoEB") 12345)
  = inr (str "webm").
Proof.
  destruct (proj1 (X25_quiz_request_passes_validation ascii_lower
              (str "I went home") (str "audio/webm;codecs=opus")
              (str "GkXfo59ChoEB") 12345))
    as (fmt & Hv & Hf).
  - discriminate.
  - simpl. lia.
  - discriminate.
  - rewrite Hv. vm_compute in Hf. by injection Hf as <-.
Defined.

(** * Progress of the analysis *)

Lemma batches_from_concat fuel : forall i n,
  (n - i <= fuel)%nat ->
  concat (batches_from fuel i n) = seq i (n - i)
  /\ Forall (fun b => (1 <= length b <= 3)%nat) (batches_from fuel i n).
Proof.
  induction fuel as [|fuel IH]; intros i n Hf; cbn [batches_from].
  - replace (n - i)%nat with 0%nat by lia. by split.
  - destruct (Nat.ltb_spec i n) as [Hlt|Hge].
    + destruct (IH (i + 3)%nat n ltac:(lia)) as [Hc Hb]. split.
      * cbn [concat]. rewrite Hc.
        replace (n - i)%nat with (min 3 (n - i) + (n - (i + 3)))%nat by lia.
        rewrite seq_app. f_equal.
        -- replace (min 3 (min 3 (n - i) + (n - (i + 3))))
             with (min 3 (n - i)) by lia.
           transitivity (Nat.add i <$> seq 0 (min 3 (n - i))); [done|].
           rewrite fmap_add_seq. by rewrite Nat.add_0_r.
        -- destruct (Nat.le_gt_cases 3 (n - i)); [f_equal; lia|].
           by replace (n - (i + 3))%nat with 0%nat by lia.
      * constructor; [|done]. rewrite length_map, length_seq. lia.
    + replace (n - i)%nat with 0%nat by lia. by split.
Qed.

Lemma settle_jobs_index i o st :
  map job_index (windowJobs (processWindow_settle i o st))
  = map job_index (windowJobs st).
Proof.
  destruct o; simpl; rewrite map_map; apply map_ext; intros job; simpl;
    by destruct (job_index job =? i)%nat.
Qed.

Lemma settle_step n outcomes processed st i :
  settled n outcomes processed st ->
  settled n outcomes (processed ++ [i])
    (processWindow_settle i (outcomes i) st).
Proof.
  intros (Hidx & Htot & Hcnt & Hjobs). split; [|split; [|split]].
  - by rewrite settle_jobs_index.
  - by destruct (outcomes i).
  - rewrite length_app. simpl. destruct (outcomes i); simpl; lia.
  - intros job Hjob.
    assert (Hjob' : exists job0, job0 ∈ windowJobs st
      /\ job_index job = job_index job0
      /\ job_status job
         = if (job_index job0 =? i)%nat then outcome_status (outcomes i)
           else job_status job0).
    { destruct (outcomes i); simpl in Hjob;
        apply list_elem_of_fmap in Hjob as (job0 & -> & Hin);
        exists job0; (split; [done|]);
        by destruct (job_index job0 =? i)%nat. }
    destruct Hjob' as (job0 & Hin & Hi & Hs). rewrite Hi, Hs.
    specialize (Hjobs job0 Hin).
    destruct (Nat.eqb_spec (job_index job0) i) as [->|Hne].
    + rewrite decide_True; [done|]. apply elem_of_app. right. by left.
    + destruct (decide (job_index job0 ∈ processed)) as [Hp|Hp].
      * rewrite decide_True; [done|]. apply elem_of_app. by left.
      * rewrite decide_False; [done|].
        intros [?|?%list_elem_of_singleton]%elem_of_app; done.
Qed.

Lemma settle_all n outcomes order : forall processed st,
  settled n outcomes processed st ->
  settled n outcomes (processed ++ order)
    (fold_left (fun st i => processWindow_settle i (outcomes i) st) order st).
Proof.
  induction order as [|i order IH]; intros processed st Hst; simpl.
  - by rewrite app_nil_r.
  - replace (processed ++ i :: order) with ((processed ++ [i]) ++ order)
      by by rewrite <- app_assoc.
    apply IH. by apply settle_step.
Qed.

Lemma analysis_start_settled n outcomes :
  settled n outcomes [] (analysis_start n).
Proof.
  unfold analysis_start, settled.
  cbn [windowJobs progress total done failed length].
  split; [|split; [done|split; [done|]]].
  - rewrite map_map. cbn [job_index]. apply map_id.
  - intros job Hjob. apply list_elem_of_fmap in Hjob as (i & -> & _).
    destruct (decide _) as [H|_]; [by apply elem_of_nil in H|done].
Qed.

(** X26. [handleAnalyze] hands every window index to [processWindow] exactly
    once, in order, in batches of one to three; and in whatever order the
    requests end, once all have ended no job is pending, each job carries
    the status of its own request, and [done + failed = total] is the number
    of windows. *)
Theorem X26_analysis_progress_adds_up
  (n : nat) (outcomes : nat -> Outcome) (order : list nat) :
  order ≡ₚ concat (analysis_batches n) ->
  let final :=
    fold_left (fun st i => processWindow_settle i (outcomes i) st) order
      (analysis_start n) in
  concat (analysis_batches n) = seq 0 n
  /\ Forall (fun b => (1 <= length b <= 3)%nat) (analysis_batches n)
  /\ map job_index (windowJobs final) = seq 0 n
  /\ total (progress final) = Z.of_nat n
  /\ done (progress final) + failed (progress final) = total (progress final)
  /\ forall job, job ∈ windowJobs final ->
       job_status job <> pending
       /\ job_status job = outcome_status (outcomes (job_index job)).
Proof.
  intros Hperm. cbn zeta.
  destruct (batches_from_concat n 0 n ltac:(lia)) as [Hc Hb].
  rewrite Nat.sub_0_r in Hc. fold (analysis_batches n) in Hc, Hb.
  rewrite Hc in Hperm.
  destruct (settle_all n outcomes order [] (analysis_start n)
              (analysis_start_settled n outcomes))
    as (Hidx & Htot & Hcnt & Hjobs).
  simpl app in *.
  split; [done|]. split; [done|]. split; [done|]. split; [done|].
  split.
  - rewrite Hcnt, Htot. f_equal. rewrite Hperm. apply length_seq.
  - intros job Hjob. specialize (Hjobs job Hjob).
    assert (Hin : job_index job ∈ order).
    { rewrite Hperm. apply list_elem_of_In.
      assert (H : job_index job ∈ map job_index
                    (windowJobs (fold_left
                       (fun st i => processWindow_settle i (outcomes i) st)
                       order (analysis_start n))))
        by (apply list_elem_of_fmap; by exists job).
      rewrite Hidx in H. by apply list_elem_of_In. }
    rewrite decide_True in Hjobs by done. split; [|done].
    rewrite Hjobs. by destruct (outcomes (job_index job)).
Qed.

Lemma X26_analysis_progress_adds_up_witness :
  let final :=
    fold_left
      (fun st i =>
         processWindow_settle i
           (if (i =? 1)%nat then Failed (str "network_error") else Analysed)
           st) [2; 0; 3; 1]%nat (analysis_start 4) in
  done (progress final) + failed (progress final) = total (progress final).
Proof.
  cbn zeta.
  apply (X26_analysis_progress_adds_up 4
    (fun i => if (i =? 1)%nat then Failed (str "network_error")
              else Analysed) [2; 0; 3; 1]%nat).
  vm_compute.
  apply (Permutation_trans (l' := [0; 2; 3; 1]%nat)); [apply perm_swap|].
  apply perm_skip.
  apply (Permutation_trans (l' := [2; 1; 3]%nat));
    [apply perm_skip, perm_swap|].
  apply perm_swap.
Defined.
